(** * Pomodoro timer (script.js): a shallow embedding and its properties

    The page script keeps two module-level objects, [config] and [state],
    and drives a countdown from [requestAnimationFrame] callbacks.  The
    embedding below threads one [World] value through every function of the
    script: the two objects, the audio context, the document's list of
    pending animation-frame callbacks, the page as [render] last wrote it,
    and a log of what reached the audio output.

    Numbers are JavaScript numbers holding integers; they are modelled as
    [Z].  A JavaScript number is a double: an integer, a product or a
    difference is exact only while it stays within 2^53, and is rounded
    beyond.  The model does not round, so it agrees with the script on
    values up to [MAX_SAFE_INTEGER]; every statement below about the value
    of a duration or of the time left carries that bound.  Time stamps
    ([performance.now()], the argument of a frame callback) are
    milliseconds; they are modelled as [Z] as well, so a time stamp stands
    for a whole number of milliseconds. *)

From Stdlib Require Import ZArith List String Ascii Bool Lia.
From Stdlib Require Import Numbers.DecimalString DecimalPos DecimalZ.
Import ListNotations.
Open Scope string_scope.
Open Scope Z_scope.

(* ================================================================= *)
(** ** Configuration and state *)

Inductive Mode := WORK | SHORT | LONG.

Record Config := mkConfig {
  work : Z;
  short : Z;
  long : Z;
  auto : bool;
  sound : string
}.

Definition DEFAULTS : Config := mkConfig 25 5 15 false "bell".

(** [timerInterval] holds the handle of the last requested frame, or
    [null]. *)
Record State := mkState {
  mode : Mode;
  timeRemaining : Z;
  isRunning : bool;
  cycleCount : Z;
  timerInterval : option nat
}.

(** The two tone profiles [playSound] can program on the oscillator:
    [Bell] is the 500 Hz sine with a 1.5 s exponential decay, [Chime] the
    800 Hz triangle with a 1 s linear decay. *)
Inductive Cue := Bell | Chime.

(** What [render] writes to the document. *)
Record View := mkView {
  title : string;
  timeDisplay : string;
  modeDisplay : string;
  cycleDisplay : string;
  bodyClass : string;
  startHidden : bool;
  pauseHidden : bool
}.

(** [callbacks] is the document's list of animation-frame callbacks.  Every
    callback the script registers is the closure [loop] of some call of
    [startTimer]; an entry keeps the handle and the current value of that
    closure's variable [lastTime].  [playSoundCalls] logs the argument of
    every call of [playSound], [cues] the tones actually started. *)
Record World := mkWorld {
  config : Config;
  state : State;
  audioCtx : bool;
  callbacks : list (nat * Z);
  nextHandle : nat;
  page : View;
  playSoundCalls : list string;
  cues : list Cue
}.

Definition withState (f : State -> State) (w : World) : World :=
  mkWorld (config w) (f (state w)) (audioCtx w) (callbacks w) (nextHandle w)
          (page w) (playSoundCalls w) (cues w).

Definition setMode (m : Mode) (s : State) : State :=
  mkState m (timeRemaining s) (isRunning s) (cycleCount s) (timerInterval s).
Definition setTimeRemaining (t : Z) (s : State) : State :=
  mkState (mode s) t (isRunning s) (cycleCount s) (timerInterval s).
Definition setIsRunning (b : bool) (s : State) : State :=
  mkState (mode s) (timeRemaining s) b (cycleCount s) (timerInterval s).
Definition setCycleCount (c : Z) (s : State) : State :=
  mkState (mode s) (timeRemaining s) (isRunning s) c (timerInterval s).
Definition setTimerInterval (h : option nat) (s : State) : State :=
  mkState (mode s) (timeRemaining s) (isRunning s) (cycleCount s) h.

(* ================================================================= *)
(** ** Start-up parameters *)

(** [URLSearchParams.get]: the value of the first pair named [key], or
    [null]. *)
Definition get (params : list (string * string)) (key : string)
  : option string :=
  match find (fun kv => String.eqb (fst kv) key) params with
  | Some kv => Some (snd kv)
  | None => None
  end.

Definition code (c : ascii) : Z := Z.of_nat (nat_of_ascii c).

(** White space and line terminators among the code units below 256. *)
Definition isWhiteSpace (c : ascii) : bool :=
  let n := code c in
  ((9 <=? n) && (n <=? 13)) || (n =? 32) || (n =? 160).

Fixpoint trimStart (s : string) : string :=
  match s with
  | String c r => if isWhiteSpace c then trimStart r else s
  | EmptyString => s
  end.

Definition digitValue (c : ascii) : option Z :=
  let n := code c in
  if (48 <=? n) && (n <=? 57) then Some (n - 48)
  else if (97 <=? n) && (n <=? 122) then Some (n - 87)
  else if (65 <=? n) && (n <=? 90) then Some (n - 55)
  else None.

Definition radixDigit (R : Z) (c : ascii) : option Z :=
  match digitValue c with
  | Some d => if d <? R then Some d else None
  | None => None
  end.

(** The values of the longest prefix of [s] made of radix-[R] digits. *)
Fixpoint digits (R : Z) (s : string) : list Z :=
  match s with
  | String c r =>
      match radixDigit R c with
      | Some d => d :: digits R r
      | None => []
      end
  | EmptyString => []
  end.

Definition mathInt (R : Z) (ds : list Z) : Z :=
  fold_left (fun acc d => acc * R + d) ds 0.

Definition isX (c : ascii) : bool := (code c =? 120) || (code c =? 88).

(** A leading sign, and what is left of the string. *)
Definition stripSign (S : string) : Z * string :=
  match S with
  | String "-" r => (-1, r)
  | String "+" r => (1, r)
  | _ => (1, S)
  end.

(** No radix was given: a leading "0x" or "0X" selects radix 16 and is
    dropped, otherwise the radix is 10. *)
Definition stripPrefix (S : string) : Z * string :=
  match S with
  | String "0" (String c r) => if isX c then (16, r) else (10, S)
  | _ => (10, S)
  end.

(** [parseInt(string)] with no radix argument; [None] is [NaN].  The sign
    of a zero result is dropped: [-0] and [0] compare alike.  The result is
    the exact integer, which is what JavaScript returns up to 2^53; beyond
    that JavaScript returns the nearest double (1e20 for twenty nines).  The
    rounding keeps [NaN] and the sign, so the test of [getPositiveIntParam]
    is the same here and there; the value it returns is the same up to
    [MAX_SAFE_INTEGER]. *)
Definition parseInt (input : string) : option Z :=
  let '(sign, S1) := stripSign (trimStart input) in
  let '(R, S2) := stripPrefix S1 in
  match digits R S2 with
  | [] => None
  | ds => Some (sign * mathInt R ds)
  end.

(** [parseInt(params.get(key))]: a missing parameter is [null], which
    [parseInt] reads as the string "null".  The value returned is exact, as
    [parseInt] is: the script's value up to [MAX_SAFE_INTEGER]. *)
Definition getPositiveIntParam (params : list (string * string))
  (key : string) (defaultVal : Z) : Z :=
  let val := parseInt (match get params key with
                       | Some v => v
                       | None => "null"
                       end) in
  match val with
  | Some v => if v >? 0 then v else defaultVal
  | None => defaultVal
  end.

Definition parseUrlParams (params : list (string * string)) (c : Config)
  : Config :=
  let c1 := mkConfig (getPositiveIntParam params "work" (work DEFAULTS))
                     (short c) (long c) (auto c) (sound c) in
  let c2 := mkConfig (work c1)
                     (getPositiveIntParam params "short" (short DEFAULTS))
                     (long c1) (auto c1) (sound c1) in
  let c3 := mkConfig (work c2) (short c2)
                     (getPositiveIntParam params "long" (long DEFAULTS))
                     (auto c2) (sound c2) in
  let c4 :=
    match get params "auto" with
    | Some autoParam =>
        mkConfig (work c3) (short c3) (long c3)
                 (String.eqb autoParam "true" || String.eqb autoParam "1")
                 (sound c3)
    | None => c3
    end in
  match get params "sound" with
  | Some soundParam =>
      if String.eqb soundParam "" then c4
      else mkConfig (work c4) (short c4) (long c4) (auto c4) soundParam
  | None => c4
  end.

(* ================================================================= *)
(** ** Rendering *)

Definition getModeLabel (m : Mode) : string :=
  match m with
  | WORK => "Work Time"
  | SHORT => "Short Break"
  | LONG => "Long Break"
  end.

Definition toString (n : Z) : string := NilZero.string_of_int (Z.to_int n).

(** [num.toString().padStart(2, '0')], for an integer that JavaScript
    prints in full (below 1e21). *)
Definition pad (num : Z) : string :=
  let s := toString num in
  match s with
  | EmptyString => "00"
  | String c EmptyString => String "0" s
  | _ => s
  end.

Definition modeClass (m : Mode) : string :=
  match m with
  | WORK => "mode-work"
  | SHORT => "mode-short"
  | LONG => "mode-long"
  end.

(** [Math.floor(timeRemaining / 60)] and [timeRemaining % 60] are computed
    exactly; the script's double division gives the same minutes for a time
    left up to [MAX_SAFE_INTEGER]. *)
Definition view (s : State) : View :=
  let minutes := timeRemaining s / 60 in
  let seconds := Z.rem (timeRemaining s) 60 in
  let timeString := pad minutes ++ ":" ++ pad seconds in
  let modeLabel := getModeLabel (mode s) in
  mkView ("(" ++ timeString ++ ") " ++ modeLabel)
         timeString
         modeLabel
         ("Cycle " ++ toString (cycleCount s) ++ "/3")
         (modeClass (mode s))
         (isRunning s)
         (negb (isRunning s)).

Definition render (w : World) : World :=
  mkWorld (config w) (state w) (audioCtx w) (callbacks w) (nextHandle w)
          (view (state w)) (playSoundCalls w) (cues w).

(* ================================================================= *)
(** ** Audio *)

(** [audioCtx] is [null] until [initAudio] creates the context.  The
    browser is taken to provide [AudioContext] or [webkitAudioContext];
    without either the constructor call throws and the Start listener stops
    there, before [startTimer]. *)
Definition initAudio (w : World) : World :=
  mkWorld (config w) (state w) true (callbacks w) (nextHandle w)
          (page w) (playSoundCalls w) (cues w).

Definition playSound (type : string) (w : World) : World :=
  let calls := (playSoundCalls w ++ [type])%list in
  if negb (audioCtx w) then
    mkWorld (config w) (state w) (audioCtx w) (callbacks w) (nextHandle w)
            (page w) calls (cues w)
  else
    mkWorld (config w) (state w) (audioCtx w) (callbacks w) (nextHandle w)
            (page w) calls
            (cues w ++ [if String.eqb type "bell" then Bell else Chime])%list.

(* ================================================================= *)
(** ** Animation frames *)

(** [requestAnimationFrame(loop)] for the closure whose [lastTime] is
    [lastTime]: the callback is appended under a fresh handle. *)
Definition requestAnimationFrame (lastTime : Z) (w : World) : nat * World :=
  (nextHandle w,
   mkWorld (config w) (state w) (audioCtx w)
           (callbacks w ++ [(nextHandle w, lastTime)])%list (S (nextHandle w))
           (page w) (playSoundCalls w) (cues w)).

Definition cancelAnimationFrame (h : nat) (w : World) : World :=
  mkWorld (config w) (state w) (audioCtx w)
          (filter (fun cb => negb (Nat.eqb (fst cb) h)) (callbacks w))
          (nextHandle w) (page w) (playSoundCalls w) (cues w).

(* ================================================================= *)
(** ** Timer logic *)

(** The products are exact; the script's are doubles, equal to these
    while they do not exceed [MAX_SAFE_INTEGER]. *)
Definition setModeTime (w : World) : World :=
  match mode (state w) with
  | WORK => withState (setTimeRemaining (work (config w) * 60)) w
  | SHORT => withState (setTimeRemaining (short (config w) * 60)) w
  | LONG => withState (setTimeRemaining (long (config w) * 60)) w
  end.

Definition resetCycle (w : World) : World :=
  let w := withState (setMode WORK) w in
  let w := withState (setCycleCount 1) w in
  let w := setModeTime w in
  let w := withState (setIsRunning false) w in
  render w.

(** [now] is what [performance.now()] returns.  The body of the frame
    callback is [loop] below. *)
Definition startTimer (now : Z) (w : World) : World :=
  if isRunning (state w) then w
  else
    let w := withState (setIsRunning true) w in
    let lastTime := now in
    let '(h, w) := requestAnimationFrame lastTime w in
    let w := withState (setTimerInterval (Some h)) w in
    render w.

Definition pauseTimer (w : World) : World :=
  let w := withState (setIsRunning false) w in
  let w :=
    match timerInterval (state w) with
    | Some h => if Nat.eqb h 0 then w else cancelAnimationFrame h w
    | None => w
    end in
  render w.

(** The mode chosen at the end of a session, with the counter update. *)
Definition nextMode (s : State) : State :=
  match mode s with
  | WORK =>
      if Z.rem (cycleCount s) 4 =? 0 then
        if cycleCount s >=? 3 then setMode LONG s else setMode SHORT s
      else setMode SHORT s
  | SHORT => setCycleCount (cycleCount s + 1) (setMode WORK s)
  | LONG => setCycleCount 1 (setMode WORK s)
  end.

Definition completeSession (skipped : bool) (now : Z) (w : World) : World :=
  let w := pauseTimer w in
  let w := withState (setTimeRemaining 0) w in
  let w := render w in
  let w :=
    if negb skipped && negb (String.eqb (sound (config w)) "none")
    then playSound (sound (config w)) w
    else w in
  let w := withState nextMode w in
  let w := setModeTime w in
  if auto (config w) then startTimer now w else render w.

Definition skipSession (now : Z) (w : World) : World :=
  let w := pauseTimer w in
  completeSession true now w.

(** One run of the frame callback [loop(currentTime)] of the closure whose
    variable [lastTime] holds [lastTime].  [timeRemaining--] is exact here;
    in the script it is, too, for a time left up to 2^53, and leaves a
    larger one as it is. *)
Definition loop (lastTime currentTime now : Z) (w : World) : World :=
  if negb (isRunning (state w)) then w
  else
    let deltaTime := currentTime - lastTime in
    if deltaTime >=? 1000 then
      let w := withState (fun s => setTimeRemaining (timeRemaining s - 1) s) w in
      let lastTime := currentTime in
      if timeRemaining (state w) <=? 0 then completeSession false now w
      else
        let w := render w in
        let '(h, w) := requestAnimationFrame lastTime w in
        withState (setTimerInterval (Some h)) w
    else
      let '(h, w) := requestAnimationFrame lastTime w in
      withState (setTimerInterval (Some h)) w.

(** The browser runs the callback registered under handle [h]: it is taken
    off the list and called with the frame's time stamp.  A handle that was
    cancelled, or never issued, runs nothing. *)
Definition fire (h : nat) (currentTime now : Z) (w : World) : World :=
  match find (fun cb => Nat.eqb (fst cb) h) (callbacks w) with
  | Some cb => loop (snd cb) currentTime now (cancelAnimationFrame h w)
  | None => w
  end.

(** One animation frame: every callback pending when the frame begins is
    run, in order, unless an earlier one cancelled it. *)
Definition animationFrame (currentTime now : Z) (w : World) : World :=
  fold_left (fun w h => fire h currentTime now w) (map fst (callbacks w)) w.

(* ================================================================= *)
(** ** The page *)

(** The world when the script starts: [html] is the page as served. *)
Definition boot (html : View) : World :=
  mkWorld DEFAULTS (mkState WORK 0 false 1 None) false [] 1%nat html [] [].

Definition init (params : list (string * string)) (html : View) : World :=
  let w := boot html in
  let w := mkWorld (parseUrlParams params (config w)) (state w) (audioCtx w)
                   (callbacks w) (nextHandle w) (page w)
                   (playSoundCalls w) (cues w) in
  let w := resetCycle w in
  render w.

(** What can happen to the page after [init]: the three buttons, a frame
    callback, and the scheduler's operations called on their own. *)
Inductive Event :=
| ClickStart (now : Z)
| ClickPause
| ClickReset (now : Z)
| Frame (h : nat) (currentTime now : Z)
| Start (now : Z)
| Complete (skipped : bool) (now : Z).

Definition step (w : World) (e : Event) : World :=
  match e with
  | ClickStart now => startTimer now (initAudio w)
  | ClickPause => pauseTimer w
  | ClickReset now => skipSession now w
  | Frame h currentTime now => fire h currentTime now w
  | Start now => startTimer now w
  | Complete skipped now => completeSession skipped now w
  end.

Definition run (w : World) (es : list Event) : World := fold_left step es w.

Definition blank : View := mkView "" "" "" "" "" false false.

(* ================================================================= *)
(** ** Notions used by the statements *)

(** The worlds the page can be in: [init], then any events. *)
Definition Reachable (w : World) : Prop :=
  exists params html es, w = run (init params html) es.

(** A run of animation frames; each carries its time stamp and the reading
    of [performance.now()] while its callbacks run. *)
Definition frames (fs : list (Z * Z)) (w : World) : World :=
  fold_left (fun w f => animationFrame (fst f) (snd f) w) fs w.

(** The frames of a run that a loop with origin [lastTime] accounts for:
    those at least 1000 ms after the last accounted one.  [origin] is the
    value of [lastTime] after the run. *)
Fixpoint accounted (lastTime : Z) (ts : list Z) : nat :=
  match ts with
  | [] => 0%nat
  | t :: r =>
      if t - lastTime >=? 1000 then S (accounted t r) else accounted lastTime r
  end.

Fixpoint origin (lastTime : Z) (ts : list Z) : Z :=
  match ts with
  | [] => lastTime
  | t :: r => if t - lastTime >=? 1000 then origin t r else origin lastTime r
  end.

(** Real time covered by a run of frames that starts at [t0]. *)
Definition elapsed (t0 : Z) (ts : list Z) : Z := last ts t0 - t0.

(** Time stamps that never go back, starting from [prev]. *)
Fixpoint nondecreasing (prev : Z) (ts : list Z) : bool :=
  match ts with
  | [] => true
  | t :: r => (prev <=? t) && nondecreasing t r
  end.

Fixpoint increasing (prev : Z) (ts : list Z) : bool :=
  match ts with
  | [] => true
  | t :: r => (prev <? t) && increasing t r
  end.

(** A run of frames after [t0] that lasts [n] seconds and has a frame on
    each whole second, whatever other frames fall in between. *)
Definition onEverySecond (t0 : Z) (n : nat) (ts : list Z) : bool :=
  increasing t0 ts &&
  forallb (fun k => existsb (Z.eqb (t0 + 1000 * Z.of_nat k)) ts) (seq 1 n) &&
  forallb (fun t => t <=? t0 + 1000 * Z.of_nat n) ts.

(** [w'] is in the same session as [w]: only the countdown, the frame
    bookkeeping and the page may differ. *)
Definition sameSession (w w' : World) : Prop :=
  mode (state w') = mode (state w) /\
  cycleCount (state w') = cycleCount (state w) /\
  isRunning (state w') = isRunning (state w) /\
  config w' = config w /\
  audioCtx w' = audioCtx w /\
  playSoundCalls w' = playSoundCalls w /\
  cues w' = cues w.

(** The countdown is one live loop: a single pending callback, whose
    handle is the one [state.timerInterval] holds. *)
Definition Ticking (w : World) (h : nat) (lastTime : Z) : Prop :=
  isRunning (state w) = true /\
  callbacks w = [(h, lastTime)] /\
  timerInterval (state w) = Some h /\
  h <> 0%nat.

Definition cycleOk (s : State) : Prop :=
  match mode s with
  | WORK => 1 <= cycleCount s <= 4
  | SHORT => 1 <= cycleCount s <= 3
  | LONG => cycleCount s = 4
  end.

Definition oneLoop (w : World) : Prop :=
  if isRunning (state w)
  then exists h lastTime, Ticking w h lastTime /\ (h < nextHandle w)%nat
  else callbacks w = [].

Definition validConfig (c : Config) : Prop :=
  0 < work c /\ 0 < short c /\ 0 < long c.

(** What every reachable world satisfies. *)
Definition Inv (w : World) : Prop :=
  cycleOk (state w) /\
  oneLoop w /\
  nextHandle w <> 0%nat /\
  page w = view (state w) /\
  validConfig (config w) /\
  0 < timeRemaining (state w).

(** The configured length of a mode, in seconds. *)
Definition durationSeconds (c : Config) (m : Mode) : Z :=
  match m with
  | WORK => work c * 60
  | SHORT => short c * 60
  | LONG => long c * 60
  end.

(** The state a completion leaves when auto-advance is off. *)
Definition advance (c : Config) (s : State) : State :=
  let s' := nextMode (setTimeRemaining 0 (setIsRunning false s)) in
  setTimeRemaining (durationSeconds c (mode s')) s'.

(** [n] sessions completed one after the other, none of them skipped. *)
Definition completions (n : nat) (now : Z) (w : World) : World :=
  run w (repeat (Complete false now) n).

Definition position (w : World) : Mode * Z :=
  (mode (state w), cycleCount (state w)).

(** A start-up value that is the decimal numeral of a positive integer:
    decimal digits only, at least one of them not zero. *)
Definition isDecimalDigit (c : ascii) : bool :=
  (48 <=? code c) && (code c <=? 57).

Fixpoint allDecimal (s : string) : bool :=
  match s with
  | String c r => isDecimalDigit c && allDecimal r
  | EmptyString => true
  end.

Fixpoint someNonZero (s : string) : bool :=
  match s with
  | String c r => negb (code c =? 48) || someNonZero r
  | EmptyString => false
  end.

Definition isPositiveInteger (v : string) : bool :=
  allDecimal v && someNonZero v.

(** The three duration parameters with their defaults. *)
Definition durationOf (key : string) (c : Config) : Z :=
  if String.eqb key "work" then work c
  else if String.eqb key "short" then short c
  else long c.

(* ================================================================= *)
(** ** Notions used by the further properties *)

(** [Number.MAX_SAFE_INTEGER], 2^53 - 1: up to it integers, and the sums,
    differences and products that stay within it, are exact doubles. *)
Definition MAX_SAFE_INTEGER : Z := 9007199254740991.

(** A configuration whose three durations, in seconds, are safe integers. *)
Definition safeConfig (c : Config) : Prop :=
  work c * 60 <= MAX_SAFE_INTEGER /\
  short c * 60 <= MAX_SAFE_INTEGER /\
  long c * 60 <= MAX_SAFE_INTEGER.

(** What an event can do to mode, counter and time left: nothing, take one
    second off, or end the session. *)
Definition keeps (s s' : State) : Prop :=
  mode s' = mode s /\
  cycleCount s' = cycleCount s /\
  timeRemaining s' = timeRemaining s.

Definition ticksOnce (s s' : State) : Prop :=
  mode s' = mode s /\
  cycleCount s' = cycleCount s /\
  timeRemaining s' = timeRemaining s - 1 /\
  0 < timeRemaining s'.

Definition movesOn (c : Config) (s s' : State) : Prop :=
  mode s' = mode (nextMode s) /\
  cycleCount s' = cycleCount (nextMode s) /\
  timeRemaining s' = durationSeconds c (mode s') /\
  isRunning s' = auto c.

(** The tone [playSound] programs for a sound name. *)
Definition cueOf (type : string) : Cue :=
  if String.eqb type "bell" then Bell else Chime.

Definition isClickStart (e : Event) : bool :=
  match e with
  | ClickStart _ => true
  | _ => false
  end.

(** The eight positions the timer goes through, in order. *)
Definition cycleTable : list (Mode * Z) :=
  [(WORK, 1); (SHORT, 1); (WORK, 2); (SHORT, 2);
   (WORK, 3); (SHORT, 3); (WORK, 4); (LONG, 4)].

(** The events that end a session on the spot. *)
Definition endsSession (e : Event) : bool :=
  match e with
  | ClickReset _ | Complete _ _ => true
  | _ => false
  end.

(** Text made of white space only, and text that cannot continue a decimal
    numeral: empty, or beginning with a character that is neither a digit
    nor the x of a radix prefix. *)
Fixpoint allWhite (s : string) : bool :=
  match s with
  | String c r => isWhiteSpace c && allWhite r
  | EmptyString => true
  end.

Definition endsNumeral (rest : string) : bool :=
  match rest with
  | String c _ => negb (isDecimalDigit c) && negb (isX c)
  | EmptyString => true
  end.

(* ================================================================= *)
(** * Properties *)

Ltac open_world w :=
  let c := fresh "c" in
  let m := fresh "m" in
  let tr := fresh "tr" in
  let ir := fresh "ir" in
  let cc := fresh "cc" in
  let ti := fresh "ti" in
  let a := fresh "a" in
  let cbs := fresh "cbs" in
  let nh := fresh "nh" in
  let pg := fresh "pg" in
  let ps := fresh "ps" in
  let cu := fresh "cu" in
  destruct w as [c [m tr ir cc ti] a cbs nh pg ps cu]; cbn in *.

(** The page is never computed on symbolic states. *)
Arguments view : simpl never.
Arguments toString : simpl never.

Ltac unfold_world :=
  unfold render, withState, setMode, setTimeRemaining, setIsRunning,
    setCycleCount, setTimerInterval, requestAnimationFrame,
    cancelAnimationFrame, initAudio in *;
  cbn in *.

(** ** The invariant *)

Section Invariant.

Lemma nextMode_cycleOk (s : State) : cycleOk s -> cycleOk (nextMode s).
Proof.
  destruct s as [m tr ir cc ti]; unfold cycleOk, nextMode; cbn.
  destruct m; cbn; intros H.
  - destruct (Z.rem cc 4 =? 0) eqn:E; cbn.
    + destruct (cc >=? 3) eqn:E3; cbn.
      * apply Z.eqb_eq in E.
        assert (cc = 1 \/ cc = 2 \/ cc = 3 \/ cc = 4) as [ -> | [ -> | [ -> | -> ] ] ]
            by lia; cbn in E; lia.
      * lia.
    + apply Z.eqb_neq in E.
      assert (cc = 1 \/ cc = 2 \/ cc = 3 \/ cc = 4) as [ -> | [ -> | [ -> | -> ] ] ]
          by lia; cbn in E; lia.
  - lia.
  - lia.
Qed.

Lemma Inv_startTimer now w : Inv w -> Inv (startTimer now w).
Proof.
  unfold Inv, startTimer. open_world w. destruct ir; [tauto|].
  unfold oneLoop, Ticking, cycleOk in *; cbn in *.
  intros (Hc & Hl & Hn & Hp & Hv & Ht); subst cbs.
  split; [assumption|]. split; [|intuition lia].
  exists nh, now; cbn. repeat split; auto.
Qed.

(** [pauseTimer] in closed form, when the countdown is one loop at most. *)
Lemma pauseTimer_eq w :
  callbacks w = [] \/ (exists h lastTime, Ticking w h lastTime) ->
  pauseTimer w =
  mkWorld (config w) (setIsRunning false (state w)) (audioCtx w) []
          (nextHandle w) (view (setIsRunning false (state w)))
          (playSoundCalls w) (cues w).
Proof.
  unfold pauseTimer, Ticking. open_world w. intros [->|(h & lt & H)].
  - destruct ti as [h|]; [destruct (Nat.eqb h 0)|]; reflexivity.
  - destruct H as (_ & -> & -> & Hh).
    destruct (Nat.eqb_spec h 0); [contradiction|].
    unfold cancelAnimationFrame; cbn. rewrite Nat.eqb_refl. reflexivity.
Qed.

Lemma oneLoop_callbacks w :
  oneLoop w -> callbacks w = [] \/ (exists h lastTime, Ticking w h lastTime).
Proof.
  unfold oneLoop. destruct (isRunning (state w)); [|auto].
  intros (h & lt & H & _). eauto.
Qed.

Lemma Inv_pauseTimer w : Inv w -> Inv (pauseTimer w).
Proof.
  unfold Inv. intros (Hc & Hl & Hn & Hp & Hv & Ht).
  rewrite (pauseTimer_eq w (oneLoop_callbacks w Hl)).
  open_world w. unfold cycleOk, oneLoop in *; cbn in *. tauto.
Qed.

Lemma pauseTimer_stopped w : isRunning (state (pauseTimer w)) = false.
Proof.
  unfold pauseTimer. open_world w.
  destruct ti as [h|]; [destruct (Nat.eqb h 0)|]; reflexivity.
Qed.

Lemma nextMode_frame (s : State) :
  isRunning (nextMode s) = isRunning s /\
  timerInterval (nextMode s) = timerInterval s /\
  timeRemaining (nextMode s) = timeRemaining s.
Proof.
  destruct s as [m tr ir cc ti]; unfold nextMode; cbn.
  destruct m; cbn; [|auto|auto].
  destruct (Z.rem cc 4 =? 0); [destruct (cc >=? 3)|]; cbn; auto.
Qed.

(** [completeSession] restores the invariant even from the world the frame
    callback calls it in, where the last second has just been taken off. *)
Lemma completeSession_Inv skipped now w :
  cycleOk (state w) ->
  callbacks w = [] \/ (exists h lastTime, Ticking w h lastTime) ->
  nextHandle w <> 0%nat ->
  validConfig (config w) ->
  Inv (completeSession skipped now w).
Proof.
  intros Hc Hl Hn Hv. unfold completeSession.
  rewrite (pauseTimer_eq w Hl). clear Hl.
  open_world w. unfold_world.
  set (s0 := mkState m 0 false cc ti).
  assert (Hc0 : cycleOk (nextMode s0)) by (apply nextMode_cycleOk; exact Hc).
  destruct (nextMode_frame s0) as (Hr & Hi & _).
  destruct (nextMode s0) as [m' tr' ir' cc' ti'] eqn:En. cbn in Hr, Hi.
  subst ir' ti'.
  assert (Hplay : forall b : bool,
    exists a' ps' cu',
      (if b then playSound (sound c)
           (mkWorld c s0 a [] nh (view s0) ps cu)
       else mkWorld c s0 a [] nh (view s0) ps cu)
      = mkWorld c s0 a' [] nh (view s0) ps' cu').
  { intros [|]; [|eauto]. unfold playSound; cbn. destruct a; cbn; eauto. }
  destruct (Hplay (negb skipped && negb (String.eqb (sound c) "none")))
    as (a' & ps' & cu' & ->). cbn. rewrite En.
  unfold setModeTime, startTimer; cbn.
  destruct Hv as (Hw & Hs & Hg).
  unfold cycleOk in Hc0; cbn in Hc0.
  destruct m'; cbn; destruct (auto c); cbn;
    unfold Inv, cycleOk, oneLoop, Ticking, validConfig; cbn;
    (repeat split; try assumption; try lia;
     try (exists nh, now; cbn; repeat split; auto)).
Qed.

Lemma Inv_completeSession skipped now w :
  Inv w -> Inv (completeSession skipped now w).
Proof.
  unfold Inv at 1. intros (Hc & Hl & Hn & Hp & Hv & Ht).
  apply completeSession_Inv; auto using oneLoop_callbacks.
Qed.

Lemma Inv_initAudio w : Inv w -> Inv (initAudio w).
Proof.
  unfold Inv, initAudio, oneLoop, Ticking. open_world w. tauto.
Qed.

Lemma fire_cases h t now w :
  oneLoop w ->
  fire h t now w = w \/
  exists lastTime,
    Ticking w h lastTime /\
    fire h t now w = loop lastTime t now (cancelAnimationFrame h w).
Proof.
  intros Hl. unfold fire, oneLoop in *.
  destruct (isRunning (state w)) eqn:Hr.
  - destruct Hl as (h0 & lt & Ht & _). pose proof Ht as (_ & Hcb & _ & _).
    rewrite Hcb. cbn. destruct (Nat.eqb_spec h0 h); [subst h0|auto].
    right. exists lt. split; [assumption|reflexivity].
  - rewrite Hl. auto.
Qed.

Lemma Inv_fire h t now w : Inv w -> Inv (fire h t now w).
Proof.
  intros H. pose proof H as (Hc & Hl & Hn & Hp & Hv & Hpos).
  destruct (fire_cases h t now w Hl) as [->|(lt & Ht & ->)];
    [assumption|].
  destruct Ht as (Hr & Hcb & Hti & Hh).
  open_world w. subst ir cbs ti.
  unfold loop, cancelAnimationFrame; cbn. rewrite Nat.eqb_refl; cbn.
  destruct (t - lt >=? 1000) eqn:Ed.
  - destruct (tr - 1 <=? 0) eqn:Ez.
    + apply completeSession_Inv; cbn; auto.
    + unfold Inv, cycleOk, oneLoop, Ticking in *; cbn in *.
      repeat split; try tauto; try lia; try apply Hv.
      exists nh, t. cbn. repeat split; auto.
  - unfold Inv, cycleOk, oneLoop, Ticking in *; cbn in *.
    repeat split; try tauto; try lia; try apply Hv.
    exists nh, lt. cbn. repeat split; auto.
Qed.

Lemma Inv_step w e : Inv w -> Inv (step w e).
Proof.
  destruct e; cbn; intros H.
  - apply Inv_startTimer, Inv_initAudio, H.
  - apply Inv_pauseTimer, H.
  - apply Inv_completeSession, Inv_pauseTimer, H.
  - apply Inv_fire, H.
  - apply Inv_startTimer, H.
  - apply Inv_completeSession, H.
Qed.

Lemma getPositiveIntParam_pos params key d :
  0 < d -> 0 < getPositiveIntParam params key d.
Proof.
  unfold getPositiveIntParam. intros Hd.
  destruct (parseInt _) as [v|]; [|assumption].
  destruct (v >? 0) eqn:E; [lia|assumption].
Qed.

Lemma parseUrlParams_valid params c : validConfig (parseUrlParams params c).
Proof.
  unfold validConfig, parseUrlParams.
  pose proof (getPositiveIntParam_pos params "work" 25 ltac:(lia)).
  pose proof (getPositiveIntParam_pos params "short" 5 ltac:(lia)).
  pose proof (getPositiveIntParam_pos params "long" 15 ltac:(lia)).
  destruct (get params "auto"); destruct (get params "sound") as [sp|];
    try destruct (String.eqb sp ""); cbn; auto.
Qed.

Lemma Inv_init params html : Inv (init params html).
Proof.
  pose proof (parseUrlParams_valid params DEFAULTS) as Hv.
  unfold init, boot, resetCycle, setModeTime; cbn.
  unfold Inv, cycleOk, oneLoop; cbn.
  destruct Hv as (Hw & Hs & Hg).
  repeat split; auto; try lia.
Qed.

Lemma Inv_run es : forall w, Inv w -> Inv (run w es).
Proof.
  induction es as [|e es IH]; intros w H; cbn; [assumption|].
  apply IH, Inv_step, H.
Qed.

Lemma Reachable_Inv w : Reachable w -> Inv w.
Proof.
  intros (params & html & es & ->). apply Inv_run, Inv_init.
Qed.

End Invariant.

(* ================================================================= *)
(** ** Closed forms of the operations *)

Section ClosedForms.

Lemma pauseTimer_record w :
  pauseTimer w =
  mkWorld (config w) (setIsRunning false (state w)) (audioCtx w)
          (callbacks (pauseTimer w)) (nextHandle w)
          (view (setIsRunning false (state w)))
          (playSoundCalls w) (cues w).
Proof.
  unfold pauseTimer. open_world w.
  destruct ti as [h|]; [destruct (Nat.eqb h 0)|]; reflexivity.
Qed.

Lemma pauseTimer_state w : state (pauseTimer w) = setIsRunning false (state w).
Proof. rewrite pauseTimer_record. reflexivity. Qed.

Lemma pauseTimer_config w : config (pauseTimer w) = config w.
Proof. rewrite pauseTimer_record. reflexivity. Qed.

Lemma pauseTimer_frame w :
  audioCtx (pauseTimer w) = audioCtx w /\
  nextHandle (pauseTimer w) = nextHandle w /\
  playSoundCalls (pauseTimer w) = playSoundCalls w /\
  cues (pauseTimer w) = cues w.
Proof. rewrite pauseTimer_record. cbn. auto. Qed.

Lemma setModeTime_eq w :
  setModeTime w =
  withState (setTimeRemaining (durationSeconds (config w) (mode (state w)))) w.
Proof. unfold setModeTime, durationSeconds. destruct (mode (state w)); auto. Qed.

Lemma startTimer_config now w : config (startTimer now w) = config w.
Proof. unfold startTimer. destruct (isRunning (state w)); reflexivity. Qed.

(** [completeSession] in closed form. *)
Lemma completeSession_eq skipped now w :
  completeSession skipped now w =
  let s := advance (config w) (state w) in
  let plays := negb skipped && negb (String.eqb (sound (config w)) "none") in
  let calls := (playSoundCalls w ++
                (if plays then [sound (config w)] else []))%list in
  let tones := (cues w ++
                (if plays && audioCtx w
                 then [if String.eqb (sound (config w)) "bell"
                       then Bell else Chime]
                 else []))%list in
  let cbs := callbacks (pauseTimer w) in
  if auto (config w)
  then mkWorld (config w)
               (setTimerInterval (Some (nextHandle w)) (setIsRunning true s))
               (audioCtx w) (cbs ++ [(nextHandle w, now)])%list
               (S (nextHandle w))
               (view (setTimerInterval (Some (nextHandle w))
                                       (setIsRunning true s)))
               calls tones
  else mkWorld (config w) s (audioCtx w) cbs (nextHandle w) (view s)
               calls tones.
Proof.
  unfold completeSession. rewrite (pauseTimer_record w).
  generalize (callbacks (pauseTimer w)). intros cbs0.
  destruct w as [c s a cbs nh pg ps cu].
  destruct s as [m tr ir cc ti].
  rewrite setModeTime_eq.
  unfold advance.
  cbv [withState setTimeRemaining setIsRunning render
       config state audioCtx callbacks nextHandle page playSoundCalls cues
       mode timeRemaining isRunning cycleCount timerInterval].
  set (s0 := mkState m 0 false cc ti).
  destruct (nextMode_frame s0) as (Hr & Hi & _). cbn in Hr, Hi.
  destruct (negb skipped && negb (String.eqb (sound c) "none"));
    [destruct a|];
    cbv [playSound startTimer withState setTimeRemaining setIsRunning render
         requestAnimationFrame setTimerInterval negb andb
         config state audioCtx callbacks nextHandle page playSoundCalls cues];
    destruct (auto c);
    cbv [config state audioCtx callbacks nextHandle page playSoundCalls cues
         isRunning];
    fold (isRunning (nextMode s0)); try rewrite Hr;
    rewrite ?app_nil_r; reflexivity.
Qed.

Lemma completeSession_config skipped now w :
  config (completeSession skipped now w) = config w.
Proof.
  rewrite completeSession_eq. cbv zeta. destruct (auto (config w)); reflexivity.
Qed.

Lemma completeSession_state skipped now w :
  auto (config w) = false ->
  state (completeSession skipped now w) = advance (config w) (state w).
Proof.
  intros Ha. rewrite completeSession_eq. cbv zeta. rewrite Ha. reflexivity.
Qed.

(** The state a completion leaves when auto-advance is on: the next
    session is already running. *)
Lemma completeSession_state_auto skipped now w :
  auto (config w) = true ->
  state (completeSession skipped now w) =
  setTimerInterval (Some (nextHandle w))
    (setIsRunning true (advance (config w) (state w))).
Proof.
  intros Ha. rewrite completeSession_eq. cbv zeta. rewrite Ha. reflexivity.
Qed.

(** What a completion sends to the audio output. *)
Lemma completeSession_audio skipped now w :
  let plays := negb skipped && negb (String.eqb (sound (config w)) "none") in
  playSoundCalls (completeSession skipped now w) =
    (playSoundCalls w ++ (if plays then [sound (config w)] else []))%list /\
  cues (completeSession skipped now w) =
    (cues w ++
     (if plays && audioCtx w
      then [if String.eqb (sound (config w)) "bell" then Bell else Chime]
      else []))%list.
Proof.
  rewrite completeSession_eq. cbv zeta.
  destruct (auto (config w)); split; reflexivity.
Qed.

End ClosedForms.

(* ================================================================= *)
(** ** The sequence of modes *)

Section ModeSequence.

Lemma run_cons w e es : run w (e :: es) = run (step w e) es.
Proof. reflexivity. Qed.

Lemma completions_S n now w :
  completions (S n) now w = completions n now (completeSession false now w).
Proof.
  unfold completions. cbn [repeat]. rewrite run_cons. cbn [step]. reflexivity.
Qed.

Lemma completions_state n now : forall w,
  auto (config w) = false ->
  state (completions n now w) = Nat.iter n (advance (config w)) (state w) /\
  config (completions n now w) = config w.
Proof.
  induction n as [|n IH]; intros w Ha; [auto|].
  rewrite completions_S.
  destruct (IH (completeSession false now w)) as (Hs & Hc).
  { rewrite completeSession_config. exact Ha. }
  rewrite Hs, Hc, completeSession_config, completeSession_state by exact Ha.
  split; [|reflexivity].
  symmetry. apply Nat.iter_succ_r.
Qed.

Lemma advance_eight c s :
  mode s = WORK -> cycleCount s = 1 -> isRunning s = false ->
  timeRemaining s = work c * 60 ->
  Nat.iter 8 (advance c) s = s.
Proof.
  destruct s as [m tr ir cc ti]; cbn. intros -> -> -> ->. reflexivity.
Qed.

Lemma init_state params html :
  state (init params html) =
  mkState WORK (work (config (init params html)) * 60) false 1 None.
Proof. reflexivity. Qed.

(** What the code does: four work sessions to a cycle, the long break
    after the fourth, then the same eight steps again, for ever. *)
Lemma mode_sequence_period_from w now n :
  auto (config w) = false ->
  mode (state w) = WORK -> cycleCount (state w) = 1 ->
  isRunning (state w) = false ->
  timeRemaining (state w) = work (config w) * 60 ->
  state (completions (n + 8) now w) = state (completions n now w).
Proof.
  intros Ha Hm Hc Hr Ht.
  destruct (completions_state (n + 8) now w Ha) as (H1 & _).
  destruct (completions_state n now w Ha) as (H2 & _).
  rewrite H1, H2, Nat.iter_add.
  rewrite (advance_eight (config w) (state w) Hm Hc Hr Ht).
  reflexivity.
Qed.

Lemma mode_sequence_period params html now n :
  auto (config (init params html)) = false ->
  state (completions (n + 8) now (init params html)) =
  state (completions n now (init params html)).
Proof.
  intros Ha. apply mode_sequence_period_from.
  - exact Ha.
  - rewrite init_state. reflexivity.
  - rewrite init_state. reflexivity.
  - rewrite init_state. reflexivity.
  - rewrite init_state. reflexivity.
Qed.

(** C1 (the code departs from the claim).  From the initial state with
    auto-advance off, completing sessions one after the other visits
    WORK(1), SHORT, WORK(2), SHORT, WORK(3), SHORT, WORK(4), LONG, WORK(1):
    the third WORK completion leads to SHORT, and the long break comes only
    after a fourth work session. *)
Theorem third_work_completion_goes_to_short :
  let w0 := init [] blank in
  position w0 = (WORK, 1) /\
  auto (config w0) = false /\
  map (fun n => position (completions n 0 w0)) (seq 0 9) =
    [(WORK, 1); (SHORT, 1); (WORK, 2); (SHORT, 2); (WORK, 3);
     (SHORT, 3); (WORK, 4); (LONG, 4); (WORK, 1)] /\
  mode (state (completions 4 0 w0)) = WORK /\
  mode (state (completions 5 0 w0)) = SHORT /\
  mode (state (completions 5 0 w0)) <> LONG.
Proof.
  vm_compute. repeat split; discriminate.
Qed.

End ModeSequence.

(* ================================================================= *)
(** ** The range of the cycle counter *)

Section CycleCounter.

Lemma cycleCount_range w : Reachable w -> 1 <= cycleCount (state w) <= 4.
Proof.
  intros H. apply Reachable_Inv in H. destruct H as (Hc & _).
  unfold cycleOk in Hc. destruct (mode (state w)); lia.
Qed.

(** C2 (the code departs from the claim).  Six presses of the Skip/Reset
    button after start-up leave the counter at 4, outside [1,3], and the
    page reads "Cycle 4/3"; six completions do the same. *)
Theorem cycle_counter_reaches_four :
  let w := run (init [] blank) (repeat (ClickReset 0) 6) in
  Reachable w /\
  cycleCount (state w) = 4 /\
  ~ (1 <= cycleCount (state w) <= 3) /\
  cycleDisplay (page w) = "Cycle 4/3" /\
  cycleCount (state (completions 6 0 (init [] blank))) = 4.
Proof.
  cbv zeta. split; [|split; [|split; [|split]]].
  - exists [], blank, (repeat (ClickReset 0) 6). reflexivity.
  - vm_compute. reflexivity.
  - vm_compute. intros [_ H]. apply H. reflexivity.
  - vm_compute. reflexivity.
  - vm_compute. reflexivity.
Qed.

(** The time left is at least one second between any two events. *)
Lemma timeRemaining_positive w : Reachable w -> 0 < timeRemaining (state w).
Proof. intros H. apply Reachable_Inv in H. apply H. Qed.

End CycleCounter.

(* ================================================================= *)
(** ** The countdown loop *)

Section Countdown.

Lemma animationFrame_ticking w h lastTime t now :
  Ticking w h lastTime ->
  animationFrame t now w =
  loop lastTime t now
    (mkWorld (config w) (state w) (audioCtx w) [] (nextHandle w) (page w)
             (playSoundCalls w) (cues w)).
Proof.
  intros (_ & Hcb & _ & _). unfold animationFrame, fire. rewrite Hcb. cbn.
  rewrite Hcb. cbn. rewrite Nat.eqb_refl. cbn.
  unfold cancelAnimationFrame. rewrite Hcb. cbn. rewrite Nat.eqb_refl.
  reflexivity.
Qed.

Lemma sameSession_refl w : sameSession w w.
Proof. unfold sameSession. tauto. Qed.

Lemma sameSession_trans w1 w2 w3 :
  sameSession w1 w2 -> sameSession w2 w3 -> sameSession w1 w3.
Proof. unfold sameSession. intuition congruence. Qed.

(** A frame less than a second after the origin only re-arms the loop. *)
Lemma frame_early w h lastTime t now :
  Ticking w h lastTime -> nextHandle w <> 0%nat ->
  t - lastTime < 1000 ->
  let w' := animationFrame t now w in
  Ticking w' (nextHandle w) lastTime /\
  nextHandle w' = S (nextHandle w) /\
  timeRemaining (state w') = timeRemaining (state w) /\
  page w' = page w /\
  sameSession w w'.
Proof.
  intros Ht Hn Hd. rewrite (animationFrame_ticking w h lastTime t now Ht).
  destruct Ht as (Hr & Hcb & Hti & Hh).
  open_world w. subst. unfold loop; cbn.
  destruct (Z.geb_spec (t - lastTime) 1000); [lia|].
  unfold Ticking, sameSession; cbn. tauto.
Qed.

(** A frame a second or more after the origin takes one second off and
    moves the origin to its own time stamp. *)
Lemma frame_late w h lastTime t now :
  Ticking w h lastTime -> nextHandle w <> 0%nat ->
  1000 <= t - lastTime ->
  1 < timeRemaining (state w) ->
  let w' := animationFrame t now w in
  Ticking w' (nextHandle w) t /\
  nextHandle w' = S (nextHandle w) /\
  timeRemaining (state w') = timeRemaining (state w) - 1 /\
  page w' = view (state w') /\
  sameSession w w'.
Proof.
  intros Ht Hn Hd Hrem. rewrite (animationFrame_ticking w h lastTime t now Ht).
  destruct Ht as (Hr & Hcb & Hti & Hh).
  open_world w. subst. unfold loop; cbn.
  destruct (Z.geb_spec (t - lastTime) 1000); [|lia].
  destruct (Z.leb_spec (tr - 1) 0); [lia|].
  unfold Ticking, sameSession; cbn. tauto.
Qed.

(** The frame that takes the last second off completes the session. *)
Lemma frame_last w h lastTime t now :
  Ticking w h lastTime ->
  1000 <= t - lastTime ->
  timeRemaining (state w) <= 1 ->
  animationFrame t now w =
  completeSession false now
    (mkWorld (config w)
             (setTimeRemaining (timeRemaining (state w) - 1) (state w))
             (audioCtx w) [] (nextHandle w) (page w)
             (playSoundCalls w) (cues w)).
Proof.
  intros Ht Hd Hrem. rewrite (animationFrame_ticking w h lastTime t now Ht).
  destruct Ht as (Hr & Hcb & Hti & Hh).
  open_world w. subst. unfold loop; cbn.
  destruct (Z.geb_spec (t - lastTime) 1000); [|lia].
  destruct (Z.leb_spec (tr - 1) 0); [|lia].
  reflexivity.
Qed.

Lemma frames_cons f fs w :
  frames (f :: fs) w = frames fs (animationFrame (fst f) (snd f) w).
Proof. reflexivity. Qed.

Lemma frames_app fs1 fs2 w :
  frames (fs1 ++ fs2)%list w = frames fs2 (frames fs1 w).
Proof. unfold frames. apply fold_left_app. Qed.

(** A run of frames that does not exhaust the session takes off one second
    per accounted frame, and nothing else. *)
Lemma frames_count fs : forall w h lastTime,
  Ticking w h lastTime -> nextHandle w <> 0%nat ->
  Z.of_nat (accounted lastTime (map fst fs)) < timeRemaining (state w) ->
  (exists h', Ticking (frames fs w) h' (origin lastTime (map fst fs))) /\
  nextHandle (frames fs w) <> 0%nat /\
  timeRemaining (state (frames fs w)) =
    timeRemaining (state w) - Z.of_nat (accounted lastTime (map fst fs)) /\
  sameSession w (frames fs w).
Proof.
  induction fs as [|[t now] fs IH]; intros w h lt Ht Hn Hlt.
  - cbn. split; [eauto|]. split; [assumption|]. split; [lia|].
    apply sameSession_refl.
  - rewrite frames_cons. cbn [map fst snd accounted origin] in *.
    destruct (Z.geb_spec (t - lt) 1000) as [Hd|Hd].
    + rewrite Nat2Z.inj_succ in *.
      destruct (frame_late w h lt t now Ht Hn Hd ltac:(lia))
        as (Ht' & Hn' & Hr' & _ & Hs').
      destruct (IH (animationFrame t now w) (nextHandle w) t Ht')
        as (He & Hn2 & Hr2 & Hs2); [lia|lia|].
      split; [exact He|]. split; [exact Hn2|]. split; [lia|].
      eapply sameSession_trans; eauto.
    + destruct (frame_early w h lt t now Ht Hn ltac:(lia))
        as (Ht' & Hn' & Hr' & _ & Hs').
      destruct (IH (animationFrame t now w) (nextHandle w) lt Ht')
        as (He & Hn2 & Hr2 & Hs2); [lia|lia|].
      split; [exact He|]. split; [exact Hn2|]. split; [lia|].
      eapply sameSession_trans; eauto.
Qed.

Lemma last_cons (r : list Z) : forall t d, last (t :: r) d = last r t.
Proof.
  induction r as [|x r IH]; intros t d; [reflexivity|].
  change (last (t :: x :: r) d) with (last (x :: r) d).
  rewrite (IH x d), (IH x t). reflexivity.
Qed.

Lemma nondecreasing_last ts : forall p,
  nondecreasing p ts = true -> p <= last ts p.
Proof.
  induction ts as [|t r IH]; intros p H; cbn in H; [cbn; lia|].
  apply andb_prop in H as (Hp & Hr). apply Z.leb_le in Hp.
  rewrite last_cons. specialize (IH t Hr). lia.
Qed.

Lemma nondecreasing_weaken ts p q :
  q <= p -> nondecreasing p ts = true -> nondecreasing q ts = true.
Proof.
  destruct ts as [|t r]; [auto|]. cbn. intros Hq H.
  apply andb_prop in H as (Hp & Hr). apply Z.leb_le in Hp.
  rewrite Hr, andb_true_r. apply Z.leb_le. lia.
Qed.

(** Each accounted frame is at least a second after the previous origin,
    and the origin never passes the last frame. *)
Lemma accounted_bound ts : forall lastTime,
  nondecreasing lastTime ts = true ->
  1000 * Z.of_nat (accounted lastTime ts) <= origin lastTime ts - lastTime /\
  origin lastTime ts <= last ts lastTime.
Proof.
  induction ts as [|t r IH]; intros lt H; [cbn; lia|].
  pose proof H as H0. cbn in H.
  apply andb_prop in H as (Hp & Hr). apply Z.leb_le in Hp.
  rewrite last_cons. cbn [accounted origin].
  destruct (Z.geb_spec (t - lt) 1000) as [Hd|Hd].
  - destruct (IH t Hr) as (Ha & Hb). split; lia.
  - destruct (IH lt (nondecreasing_weaken r t lt Hp Hr)) as (Ha & Hb).
    split; [lia|].
    destruct r as [|x r]; [cbn in *; lia|].
    rewrite last_cons in *. lia.
Qed.

Lemma accounted_le_elapsed t0 ts :
  nondecreasing t0 ts = true ->
  0 <= Z.of_nat (accounted t0 ts) <= elapsed t0 ts / 1000.
Proof.
  intros H. destruct (accounted_bound ts t0 H) as (Ha & Hb).
  unfold elapsed. split; [lia|].
  apply Z.div_le_lower_bound; lia.
Qed.

Lemma startTimer_ticking t0 w :
  Inv w -> isRunning (state w) = false ->
  let w' := startTimer t0 w in
  Ticking w' (nextHandle w) t0 /\
  nextHandle w' <> 0%nat /\
  state w' =
    setTimerInterval (Some (nextHandle w)) (setIsRunning true (state w)) /\
  config w' = config w /\
  audioCtx w' = audioCtx w /\
  playSoundCalls w' = playSoundCalls w /\
  cues w' = cues w.
Proof.
  unfold Inv, oneLoop. intros (_ & Hl & Hn & _) Hr. rewrite Hr in Hl.
  unfold startTimer. rewrite Hr. open_world w. subst.
  unfold Ticking; cbn. repeat split; auto.
Qed.

Lemma Reachable_init params html : Reachable (init params html).
Proof. exists params, html, []. reflexivity. Qed.

(** X20.  What the loop does keep.  While a session runs on without
    completing, a frame at least 1000 ms after the last accounted one takes
    exactly one second off and becomes the new origin, whatever time went
    by; any other frame takes nothing off.  Over frames that span T seconds
    the countdown drops by the number of accounted frames, which is at most
    floor(T): seconds may be lost to jitter, none is gained. *)
Theorem countdown_drops_at_most_elapsed_seconds w0 t0 fs :
  Reachable w0 ->
  isRunning (state w0) = false ->
  timeRemaining (state w0) <= MAX_SAFE_INTEGER ->
  nondecreasing t0 (map fst fs) = true ->
  Z.of_nat (accounted t0 (map fst fs)) < timeRemaining (state w0) ->
  let w := frames fs (startTimer t0 w0) in
  let dropped := timeRemaining (state w0) - timeRemaining (state w) in
  isRunning (state w) = true /\
  mode (state w) = mode (state w0) /\
  cycleCount (state w) = cycleCount (state w0) /\
  dropped = Z.of_nat (accounted t0 (map fst fs)) /\
  0 <= dropped <= elapsed t0 (map fst fs) / 1000.
Proof.
  intros Hreach Hr _ Hnd Hlt w dropped.
  pose proof (Reachable_Inv w0 Hreach) as HI.
  destruct (startTimer_ticking t0 w0 HI Hr)
    as (Ht & Hn & Hs & _).
  pose proof (accounted_le_elapsed t0 (map fst fs) Hnd) as Hb.
  assert (Hrem : timeRemaining (state (startTimer t0 w0)) =
                 timeRemaining (state w0)) by (rewrite Hs; reflexivity).
  destruct (frames_count fs (startTimer t0 w0) (nextHandle w0) t0 Ht Hn)
    as ((h' & Ht') & _ & Hd & Hm & Hc & _).
  { rewrite Hrem. lia. }
  fold w in Ht', Hd, Hm, Hc.
  assert (Hdrop : dropped = Z.of_nat (accounted t0 (map fst fs))).
  { unfold dropped. rewrite Hd, Hrem. lia. }
  split; [apply Ht'|]. rewrite Hm, Hc, Hs. cbn.
  split; [reflexivity|]. split; [reflexivity|]. split; [assumption|].
  rewrite Hdrop. assumption.
Qed.

Lemma countdown_drops_at_most_elapsed_seconds_witness :
  let w0 := init [("work", "1")] blank in
  let fs := map (fun k => (1500 * Z.of_nat k, 1500 * Z.of_nat k)) (seq 1 40) in
  let w := frames fs (startTimer 0 w0) in
  let dropped := timeRemaining (state w0) - timeRemaining (state w) in
  (timeRemaining (state w0) = 60 /\ elapsed 0 (map fst fs) / 1000 = 60 /\
   accounted 0 (map fst fs) = 40%nat) /\
  isRunning (state w) = true /\
  mode (state w) = mode (state w0) /\
  cycleCount (state w) = cycleCount (state w0) /\
  dropped = Z.of_nat (accounted 0 (map fst fs)) /\
  0 <= dropped <= elapsed 0 (map fst fs) / 1000.
Proof.
  split; [vm_compute; repeat split|].
  apply (countdown_drops_at_most_elapsed_seconds
           (init [("work", "1")] blank) 0
           (map (fun k => (1500 * Z.of_nat k, 1500 * Z.of_nat k)) (seq 1 40))).
  - apply Reachable_init.
  - reflexivity.
  - vm_compute. discriminate.
  - vm_compute. reflexivity.
  - vm_compute. reflexivity.
Defined.

(** C3 (the code departs from the claim).  Started at time 0 with 1500 s
    on the clock, two frames at 1500 ms and 3000 ms span exactly 3 s yet
    take 2 s off: [lastTime = currentTime] drops the 500 ms beyond each
    accounted second instead of carrying them.  And one frame 3000 ms after
    the start takes 1 s off, not the 3 whole seconds that went by. *)
Lemma countdown_drift_counterexample :
  let w0 := startTimer 0 (init [] blank) in
  let w2 := frames [(1500, 1500); (3000, 3000)] w0 in
  let w1 := frames [(3000, 3000)] w0 in
  timeRemaining (state w0) = 1500 /\
  isRunning (state w2) = true /\ mode (state w2) = mode (state w0) /\
  elapsed 0 [1500; 3000] = 3000 /\
  timeRemaining (state w0) - timeRemaining (state w2) = 2 /\
  timeRemaining (state w0) - timeRemaining (state w2) <> 3000 / 1000 /\
  isRunning (state w1) = true /\ mode (state w1) = mode (state w0) /\
  timeRemaining (state w0) - timeRemaining (state w1) = 1 /\
  timeRemaining (state w0) - timeRemaining (state w1) <> 3000 / 1000.
Proof.
  cbv zeta. repeat split; try reflexivity; vm_compute; discriminate.
Qed.

End Countdown.

(* ================================================================= *)
(** ** One minute of work with auto-advance *)

Section AutoAdvance.

Lemma increasing_In ts : forall p t,
  increasing p ts = true -> In t ts -> p < t.
Proof.
  induction ts as [|x r IH]; intros p t H Hin; [contradiction|].
  cbn in H. apply andb_prop in H as (Hp & Hr). apply Z.ltb_lt in Hp.
  destruct Hin as [->|Hin]; [assumption|].
  specialize (IH x t Hr Hin). lia.
Qed.

(** With a frame on every whole second, every second is accounted. *)
Lemma accounted_every_second ts : forall t0 j m p,
  0 <= j <= m ->
  increasing p ts = true ->
  (forall t, In t ts -> t0 + 1000 * j <= t < t0 + 1000 * (m + 1)) ->
  (forall k, j < k <= m -> In (t0 + 1000 * k) ts) ->
  Z.of_nat (accounted (t0 + 1000 * j) ts) = m - j /\
  origin (t0 + 1000 * j) ts = t0 + 1000 * m.
Proof.
  induction ts as [|t r IH]; intros t0 j m p Hj Hinc Hrange Hsec.
  - assert (j = m) as ->.
    { destruct (Z.eq_dec j m); [assumption|].
      destruct (Hsec (j + 1)); lia. }
    cbn. split; [lia|reflexivity].
  - cbn in Hinc. apply andb_prop in Hinc as (_ & Hr).
    pose proof (Hrange t (or_introl eq_refl)) as Ht.
    cbn [accounted origin].
    destruct (Z.geb_spec (t - (t0 + 1000 * j)) 1000) as [Hd|Hd].
    + assert (Hjm : j < m) by lia.
      assert (Hb : t = t0 + 1000 * (j + 1)).
      { destruct (Hsec (j + 1) ltac:(lia)) as [Hb|Hb]; [auto|].
        pose proof (increasing_In r t _ Hr Hb). lia. }
      rewrite Hb.
      assert (Hrange' : forall x, In x r ->
                t0 + 1000 * (j + 1) <= x < t0 + 1000 * (m + 1)).
      { intros x Hx. pose proof (increasing_In r t x Hr Hx).
        pose proof (Hrange x (or_intror Hx)). lia. }
      assert (Hsec' : forall k, j + 1 < k <= m -> In (t0 + 1000 * k) r).
      { intros k Hk. destruct (Hsec k ltac:(lia)) as [Hk'|Hk']; [lia|auto]. }
      destruct (IH t0 (j + 1) m t ltac:(lia) Hr Hrange' Hsec') as (Ha & Ho).
      rewrite Nat2Z.inj_succ. split; [lia|assumption].
    + assert (Hrange' : forall x, In x r ->
                t0 + 1000 * j <= x < t0 + 1000 * (m + 1)).
      { intros x Hx. pose proof (increasing_In r t x Hr Hx).
        pose proof (Hrange x (or_intror Hx)). lia. }
      assert (Hsec' : forall k, j < k <= m -> In (t0 + 1000 * k) r).
      { intros k Hk. destruct (Hsec k Hk) as [Hk'|Hk']; [lia|auto]. }
      exact (IH t0 j m t Hj Hr Hrange' Hsec').
Qed.

Lemma increasing_app l1 : forall l2 p,
  increasing p (l1 ++ l2)%list = true ->
  increasing p l1 = true /\ increasing (last l1 p) l2 = true.
Proof.
  induction l1 as [|x l1 IH]; intros l2 p H; [auto|].
  cbn in H. apply andb_prop in H as (Hp & Hr).
  destruct (IH l2 x Hr) as (H1 & H2).
  rewrite last_cons. cbn. rewrite Hp, H1. auto.
Qed.

(** Such a run ends with the frame on its last whole second, and has a
    frame on each whole second before it. *)
Lemma onEverySecond_split t0 n ts :
  onEverySecond t0 (S n) ts = true ->
  exists pre,
    ts = (pre ++ [t0 + 1000 * (Z.of_nat n + 1)])%list /\
    increasing t0 pre = true /\
    (forall t, In t pre -> t0 <= t < t0 + 1000 * (Z.of_nat n + 1)) /\
    (forall k, 0 < k <= Z.of_nat n -> In (t0 + 1000 * k) pre).
Proof.
  unfold onEverySecond. intros H.
  apply andb_prop in H as (H & Hup). apply andb_prop in H as (Hinc & Hsec).
  rewrite forallb_forall in Hup, Hsec.
  assert (Hin : forall k, (1 <= k <= S n)%nat ->
                          In (t0 + 1000 * Z.of_nat k) ts).
  { intros k Hk. specialize (Hsec k). rewrite in_seq in Hsec.
    specialize (Hsec ltac:(lia)). apply existsb_exists in Hsec.
    destruct Hsec as (x & Hx & He). apply Z.eqb_eq in He. subst x. exact Hx. }
  destruct (in_split _ _ (Hin (S n) ltac:(lia))) as (pre & post & Hts).
  assert (post = []) as ->.
  { destruct post as [|x post]; [reflexivity|]. exfalso.
    rewrite Hts in Hinc. apply increasing_app in Hinc as (_ & Hinc).
    cbn in Hinc. apply andb_prop in Hinc as (_ & Hinc).
    apply andb_prop in Hinc as (Hlt & _). apply Z.ltb_lt in Hlt.
    assert (Hx : In x ts) by (rewrite Hts; apply in_or_app; cbn; auto).
    apply Hup, Z.leb_le in Hx. lia. }
  exists pre. replace (Z.of_nat n + 1) with (Z.of_nat (S n)) by lia.
  split; [exact Hts|].
  rewrite Hts in Hinc. pose proof Hinc as Hinc2.
  apply increasing_app in Hinc as (Hpre & Hlast).
  split; [exact Hpre|].
  assert (Hbelow : forall t, In t pre -> t < t0 + 1000 * Z.of_nat (S n)).
  { clear - Hinc2. revert Hinc2. generalize (t0 + 1000 * Z.of_nat (S n)).
    generalize t0. induction pre as [|x pre IH]; intros p b H t Ht;
      [contradiction|].
    cbn in H. apply andb_prop in H as (Hp & Hr).
    destruct Ht as [->|Ht]; [|eapply IH; eauto].
    apply (increasing_In _ _ b Hr). apply in_or_app. cbn. auto. }
  split.
  - intros t Ht. pose proof (increasing_In pre t0 t Hpre Ht).
    specialize (Hbelow t Ht). lia.
  - intros k Hk.
    specialize (Hin (Z.to_nat k) ltac:(lia)).
    rewrite Z2Nat.id in Hin by lia.
    rewrite Hts in Hin. apply in_app_or in Hin as [Hin|Hin]; [exact Hin|].
    destruct Hin as [Hin|[]]. lia.
Qed.

(** The one-minute scenario when the frames fall on the whole seconds.
    Configured with work=1, short=1, long=1, auto=true, sound=none, started
    at [t0] and given 60 s of frames with one on each whole second (and any
    others in between), the timer is in the short break with 60 s on the
    clock, running again, cycle counter 1, and nothing was sent to the audio
    output. *)
Theorem auto_advance_after_one_minute html t0 fs :
  let w0 := init [("work", "1"); ("short", "1"); ("long", "1");
                  ("auto", "true"); ("sound", "none")] html in
  onEverySecond t0 60 (map fst fs) = true ->
  let w := frames fs (startTimer t0 w0) in
  config w0 = mkConfig 1 1 1 true "none" /\
  mode (state w) = SHORT /\
  timeRemaining (state w) = 60 /\
  isRunning (state w) = true /\
  cycleCount (state w) = 1 /\
  playSoundCalls w = [] /\
  cues w = [].
Proof.
  intros w0 Hsec w.
  assert (HI : Inv w0) by (apply Reachable_Inv, Reachable_init).
  assert (Hcfg : config w0 = mkConfig 1 1 1 true "none")
    by (vm_compute; reflexivity).
  assert (Hst : state w0 = mkState WORK 60 false 1 None)
    by (vm_compute; reflexivity).
  assert (Hpl : playSoundCalls w0 = []) by (vm_compute; reflexivity).
  assert (Hcu : cues w0 = []) by (vm_compute; reflexivity).
  assert (Hrun : isRunning (state w0) = false) by (rewrite Hst; reflexivity).
  destruct (startTimer_ticking t0 w0 HI Hrun)
    as (Ht & Hn & Hs & Hc & _ & Hp & Hu).
  clearbody w0.
  rewrite Hst in Hs. rewrite Hcfg in Hc. rewrite Hpl in Hp. rewrite Hcu in Hu.
  cbn in Hs.
  destruct (onEverySecond_split t0 59 (map fst fs) Hsec)
    as (pre & Hts & Hinc & Hrange & Hin).
  apply map_eq_app in Hts as (fpre & flast & -> & Hpre & Hlast).
  destruct flast as [|[t now] [|? ?]]; try discriminate.
  cbn in Hlast. injection Hlast as Hlast. subst pre.
  assert (Hrange' : forall x, In x (map fst fpre) ->
            t0 + 1000 * 0 <= x < t0 + 1000 * (59 + 1)).
  { intros x Hx. specialize (Hrange x Hx). cbn in Hrange. lia. }
  assert (Hin' : forall k, 0 < k <= 59 -> In (t0 + 1000 * k) (map fst fpre)).
  { intros k Hk. apply Hin. cbn. lia. }
  destruct (accounted_every_second (map fst fpre) t0 0 59 t0
              ltac:(lia) Hinc Hrange' Hin') as (Ha & Ho).
  replace (t0 + 1000 * 0) with t0 in Ha, Ho by lia.
  destruct (frames_count fpre (startTimer t0 w0) (nextHandle w0) t0 Ht Hn)
    as ((h' & Ht') & _ & Hrem & Hm & Hcc & Hr & Hcf & _ & Hp' & Hu').
  { rewrite Ha, Hs. cbn. lia. }
  rewrite Ha, Hs in Hrem. rewrite Ho in Ht'. rewrite Hs in Hm, Hcc.
  rewrite Hc in Hcf. rewrite Hp in Hp'. rewrite Hu in Hu'.
  cbn in Hrem, Hm, Hcc.
  unfold w. rewrite frames_app.
  set (w1 := frames fpre (startTimer t0 w0)) in *.
  change (frames [(t, now)] w1) with (animationFrame t now w1).
  rewrite (frame_last w1 h' (t0 + 1000 * 59) t now Ht') by lia.
  split; [exact Hcfg|].
  rewrite completeSession_state_auto by (cbn; rewrite Hcf; reflexivity).
  destruct (completeSession_audio false now
    (mkWorld (config w1)
       (setTimeRemaining (timeRemaining (state w1) - 1) (state w1))
       (audioCtx w1) [] (nextHandle w1) (page w1) (playSoundCalls w1)
       (cues w1))) as (Hpa & Hcu').
  rewrite Hpa, Hcu'. cbn [config state audioCtx playSoundCalls cues].
  rewrite Hcf, Hp', Hu'.
  unfold advance. destruct (state w1) as [m tr ir cc ti].
  cbn in Hm, Hcc. subst m cc. vm_compute. repeat split.
Qed.

Lemma auto_advance_after_one_minute_witness :
  let fs := map (fun k => (1000 * Z.of_nat k, 1000 * Z.of_nat k)) (seq 1 60) in
  let w0 := init [("work", "1"); ("short", "1"); ("long", "1");
                  ("auto", "true"); ("sound", "none")] blank in
  let w := frames fs (startTimer 0 w0) in
  onEverySecond 0 60 (map fst fs) = true /\
  (config w0 = mkConfig 1 1 1 true "none" /\
   mode (state w) = SHORT /\
   timeRemaining (state w) = 60 /\
   isRunning (state w) = true /\
   cycleCount (state w) = 1 /\
   playSoundCalls w = [] /\
   cues w = []).
Proof.
  split; [vm_compute; reflexivity|].
  apply (auto_advance_after_one_minute blank 0
           (map (fun k => (1000 * Z.of_nat k, 1000 * Z.of_nat k)) (seq 1 60))).
  vm_compute. reflexivity.
Defined.

(** C4 (the code departs from the claim).  Configured with work=1,
    short=1, long=1, auto=true, sound=none and started at time 0.  Frames
    every 16 ms, as a display delivers them, span exactly 60 s and take 59 s
    off: each accounted frame comes 1008 ms after the last and the 8 ms are
    dropped, so after one minute the timer is still in the work session with
    1 s left.  Forty frames 1500 ms apart leave 20 s; a single frame 60 s
    after the start leaves 59 s. *)
Lemma one_minute_of_ticks_counterexample :
  let w0 := init [("work", "1"); ("short", "1"); ("long", "1");
                  ("auto", "true"); ("sound", "none")] blank in
  let fs16 := map (fun k => (16 * Z.of_nat k, 16 * Z.of_nat k)) (seq 1 3750) in
  let w16 := frames fs16 (startTimer 0 w0) in
  let fs := map (fun k => (1500 * Z.of_nat k, 1500 * Z.of_nat k)) (seq 1 40) in
  let w := frames fs (startTimer 0 w0) in
  let w' := frames [(60000, 60000)] (startTimer 0 w0) in
  (nondecreasing 0 (map fst fs16) = true /\
   elapsed 0 (map fst fs16) = 60000 /\
   mode (state w16) = WORK /\ mode (state w16) <> SHORT /\
   timeRemaining (state w16) = 1 /\ cycleCount (state w16) = 1) /\
  nondecreasing 0 (map fst fs) = true /\
  elapsed 0 (map fst fs) = 60000 /\
  mode (state w) = WORK /\ mode (state w) <> SHORT /\
  timeRemaining (state w) = 20 /\
  mode (state w') = WORK /\ mode (state w') <> SHORT /\
  timeRemaining (state w') = 59.
Proof.
  vm_compute. repeat split; discriminate.
Qed.

End AutoAdvance.

(* ================================================================= *)
(** ** Skipping and the audio output *)

Section Audio.

Lemma app_one_neq {A} (l : list A) (x : A) : (l ++ [x])%list <> l.
Proof.
  intros H. apply (f_equal (@List.length A)) in H.
  rewrite length_app in H. cbn in H. lia.
Qed.

(** C5.  [skipSession] sends nothing to the audio output: no call of
    [playSound], no tone.  A completion calls [playSound] exactly when it is
    not skipped and the configured sound is not "none", and a tone is
    started only then. *)
Theorem skip_never_plays_a_cue now w :
  playSoundCalls (skipSession now w) = playSoundCalls w /\
  cues (skipSession now w) = cues w /\
  (forall skipped,
     playSoundCalls (completeSession skipped now w) <> playSoundCalls w <->
     skipped = false /\ sound (config w) <> "none") /\
  (forall skipped,
     cues (completeSession skipped now w) <> cues w ->
     skipped = false /\ sound (config w) <> "none").
Proof.
  split; [|split; [|split]].
  - unfold skipSession.
    destruct (completeSession_audio true now (pauseTimer w)) as (H & _).
    cbn in H. rewrite H, app_nil_r. apply pauseTimer_frame.
  - unfold skipSession.
    destruct (completeSession_audio true now (pauseTimer w)) as (_ & H).
    cbn in H. rewrite H, app_nil_r. apply pauseTimer_frame.
  - intros skipped.
    destruct (completeSession_audio skipped now w) as (H & _). rewrite H.
    destruct skipped; cbn.
    + rewrite app_nil_r. split; [congruence|]. intros [? _]. discriminate.
    + destruct (String.eqb_spec (sound (config w)) "none") as [E|E]; cbn.
      * rewrite app_nil_r. split; [congruence|]. tauto.
      * split; [auto|]. intros _. apply app_one_neq.
  - intros skipped.
    destruct (completeSession_audio skipped now w) as (_ & H). rewrite H.
    destruct skipped; cbn.
    + rewrite app_nil_r. congruence.
    + destruct (String.eqb_spec (sound (config w)) "none") as [E|E]; cbn.
      * rewrite app_nil_r. congruence.
      * auto.
Qed.

End Audio.

(* ================================================================= *)
(** ** Start and pause *)

Section StartPause.

(** C7.  [startTimer] on a running timer returns at once: the world is the
    one it was given, so time left, mode, counter, the loop's origin and the
    list of pending callbacks are untouched, and any later frames act as if
    the call had not been made.  The Start button does the same up to the
    audio context it readies, and a reachable running world has exactly one
    pending callback before and after. *)
Theorem start_while_running_is_noop now w :
  isRunning (state w) = true ->
  startTimer now w = w /\
  (forall fs, frames fs (startTimer now w) = frames fs w) /\
  (forall es, run (startTimer now w) es = run w es) /\
  state (step w (ClickStart now)) = state w /\
  callbacks (step w (ClickStart now)) = callbacks w /\
  (Reachable w -> List.length (callbacks (startTimer now w)) = 1%nat).
Proof.
  intros Hr.
  assert (H : startTimer now w = w) by (unfold startTimer; rewrite Hr; auto).
  rewrite H. repeat split.
  - cbn. unfold startTimer. cbn. rewrite Hr. reflexivity.
  - cbn. unfold startTimer. cbn. rewrite Hr. reflexivity.
  - intros Hreach. apply Reachable_Inv in Hreach.
    destruct Hreach as (_ & Hl & _). unfold oneLoop in Hl. rewrite Hr in Hl.
    destruct Hl as (h & lt & (_ & -> & _) & _). reflexivity.
Qed.

Lemma start_while_running_is_noop_witness :
  let w := startTimer 0 (init [] blank) in
  isRunning (state w) = true /\ startTimer 5000 w = w.
Proof.
  split; [reflexivity|].
  apply (start_while_running_is_noop 5000 (startTimer 0 (init [] blank))).
  reflexivity.
Defined.

Lemma fire_stopped h t now w :
  isRunning (state w) = false ->
  fire h t now w =
  mkWorld (config w) (state w) (audioCtx w) (callbacks (fire h t now w))
          (nextHandle w) (page w) (playSoundCalls w) (cues w).
Proof.
  intros Hr. unfold fire, loop.
  destruct (find _ (callbacks w)); [|destruct w; reflexivity].
  unfold cancelAnimationFrame at 1 3. cbn. rewrite Hr. cbn.
  reflexivity.
Qed.

(** C8.  [pauseTimer] leaves time left, mode and counter alone and clears
    the running flag.  In a reachable world it also empties the list of
    pending callbacks, so no frame can change anything afterwards; and if the
    timer was not running it changes nothing at all. *)
Theorem pause_only_stops_the_countdown w :
  (timeRemaining (state (pauseTimer w)) = timeRemaining (state w) /\
   mode (state (pauseTimer w)) = mode (state w) /\
   cycleCount (state (pauseTimer w)) = cycleCount (state w) /\
   isRunning (state (pauseTimer w)) = false) /\
  (Reachable w ->
   callbacks (pauseTimer w) = [] /\
   forall h t now, fire h t now (pauseTimer w) = pauseTimer w) /\
  (Reachable w -> isRunning (state w) = false -> pauseTimer w = w).
Proof.
  split; [|split].
  - rewrite pauseTimer_state. destruct (state w); cbn. auto.
  - intros Hreach. apply Reachable_Inv in Hreach.
    destruct Hreach as (_ & Hl & _).
    rewrite (pauseTimer_eq w (oneLoop_callbacks w Hl)).
    split; [reflexivity|]. intros h t now. reflexivity.
  - intros Hreach Hr. apply Reachable_Inv in Hreach.
    destruct Hreach as (_ & Hl & _ & Hp & _).
    rewrite (pauseTimer_eq w (oneLoop_callbacks w Hl)).
    unfold oneLoop in Hl. rewrite Hr in Hl.
    open_world w. subst. reflexivity.
Qed.

Lemma pause_only_stops_the_countdown_witness :
  let w := init [] blank in
  let w' := startTimer 0 w in
  (Reachable w /\ isRunning (state w) = false /\ pauseTimer w = w) /\
  (Reachable w' /\ callbacks (pauseTimer w') = []).
Proof.
  assert (H1 : Reachable (init [] blank)) by apply Reachable_init.
  assert (H2 : Reachable (startTimer 0 (init [] blank))).
  { exists [], blank, [Start 0]. reflexivity. }
  split.
  - split; [exact H1|]. split; [reflexivity|].
    apply (pause_only_stops_the_countdown (init [] blank));
      [exact H1|reflexivity].
  - split; [exact H2|].
    apply (pause_only_stops_the_countdown (startTimer 0 (init [] blank))).
    exact H2.
Defined.

End StartPause.

(* ================================================================= *)
(** ** Reset *)

Section Reset.

Lemma fire_stopped_running h t now w :
  isRunning (state w) = false -> isRunning (state (fire h t now w)) = false.
Proof. intros Hr. rewrite (fire_stopped h t now w Hr). exact Hr. Qed.

(** Frame callbacks that find the timer stopped return at once. *)
Lemma frame_events_stopped (fes : list (nat * (Z * Z))) : forall w,
  isRunning (state w) = false ->
  let w' := run w (map (fun f => Frame (fst f) (fst (snd f)) (snd (snd f)))
                       fes) in
  state w' = state w /\ page w' = page w /\ config w' = config w /\
  playSoundCalls w' = playSoundCalls w /\ cues w' = cues w.
Proof.
  induction fes as [|[h [t now]] fes IH]; intros w Hr; cbn; [auto 6|].
  destruct (IH (fire h t now w) (fire_stopped_running h t now w Hr))
    as (Hs & Hp & Hc & Hpl & Hcu).
  cbn in Hs, Hp, Hc, Hpl, Hcu. unfold run in *.
  rewrite Hs, Hp, Hc, Hpl, Hcu.
  rewrite (fire_stopped h t now w Hr). cbn. auto 6.
Qed.

Lemma animationFrame_stopped t now w :
  isRunning (state w) = false ->
  let w' := animationFrame t now w in
  state w' = state w /\ page w' = page w /\ config w' = config w /\
  playSoundCalls w' = playSoundCalls w /\ cues w' = cues w.
Proof.
  intros Hr. unfold animationFrame.
  generalize (map fst (callbacks w)). intros hs.
  revert w Hr. induction hs as [|h hs IH]; intros w Hr; cbn; [auto 6|].
  destruct (IH (fire h t now w) (fire_stopped_running h t now w Hr))
    as (Hs & Hp & Hc & Hpl & Hcu).
  cbn in Hs, Hp, Hc, Hpl, Hcu.
  rewrite Hs, Hp, Hc, Hpl, Hcu.
  rewrite (fire_stopped h t now w Hr). cbn. auto 6.
Qed.

Lemma frames_stopped fs : forall w,
  isRunning (state w) = false ->
  state (frames fs w) = state w /\ page (frames fs w) = page w.
Proof.
  induction fs as [|[t now] fs IH]; intros w Hr; [auto|].
  rewrite frames_cons. cbn [fst snd].
  destruct (animationFrame_stopped t now w Hr) as (Hs & Hp & _).
  cbn in Hs, Hp.
  destruct (IH (animationFrame t now w)) as (Hs' & Hp').
  { rewrite Hs. exact Hr. }
  rewrite Hs', Hp', Hs, Hp. auto.
Qed.

(** C9.  From any world, [resetCycle] leaves mode WORK, counter 1 and the
    timer stopped, and for a configured work duration w > 0 whose seconds
    are a safe integer it leaves w * 60 on the clock; frame callbacks that
    run afterwards, pending ones included, change neither the state nor the
    page. *)
Theorem reset_restarts_the_cycle w :
  let w' := resetCycle w in
  mode (state w') = WORK /\
  cycleCount (state w') = 1 /\
  (0 < work (config w) -> work (config w) * 60 <= MAX_SAFE_INTEGER ->
   timeRemaining (state w') = work (config w) * 60) /\
  isRunning (state w') = false /\
  config w' = config w /\
  page w' = view (state w') /\
  (forall fes : list (nat * (Z * Z)),
     let w'' := run w' (map (fun f => Frame (fst f) (fst (snd f))
                                            (snd (snd f))) fes) in
     state w'' = state w' /\ page w'' = page w') /\
  (forall fs, state (frames fs w') = state w' /\
              page (frames fs w') = page w').
Proof.
  cbv zeta.
  assert (Hr : isRunning (state (resetCycle w)) = false) by reflexivity.
  repeat split; try reflexivity.
  - apply (frame_events_stopped fes (resetCycle w) Hr).
  - apply (frame_events_stopped fes (resetCycle w) Hr).
  - apply (frames_stopped fs (resetCycle w) Hr).
  - apply (frames_stopped fs (resetCycle w) Hr).
Qed.

Lemma reset_restarts_the_cycle_witness :
  let w := run (init [("work", "50")] blank)
               [Start 0; Frame 1 1000 1000; ClickReset 2000] in
  (0 < work (config w) /\ work (config w) * 60 <= MAX_SAFE_INTEGER /\
   mode (state w) = SHORT) /\
  mode (state (resetCycle w)) = WORK /\
  timeRemaining (state (resetCycle w)) = 3000.
Proof.
  split; [vm_compute; repeat split; discriminate|].
  destruct (reset_restarts_the_cycle
              (run (init [("work", "50")] blank)
                   [Start 0; Frame 1 1000 1000; ClickReset 2000]))
    as (Hm & _ & Ht & _).
  split; [exact Hm|].
  rewrite Ht; [vm_compute; reflexivity|vm_compute; reflexivity
              |vm_compute; discriminate].
Defined.

(** [resetCycle] leaves a pending callback in place.  The page calls it
    only from [init], before any callback exists; were it called on a running
    timer and followed by a new start, two loops would count down side by
    side: here one frame takes two seconds off. *)
Remark reset_keeps_the_pending_callback :
  let w := startTimer 10 (resetCycle (startTimer 0 (init [] blank))) in
  List.length (callbacks w) = 2%nat /\
  timeRemaining (state w) = 1500 /\
  timeRemaining (state (animationFrame 1010 1010 w)) = 1498.
Proof. vm_compute. repeat split. Qed.

End Reset.

(* ================================================================= *)
(** ** The sound parameter *)

Section Sound.

Lemma loop_config lastTime t now w :
  config (loop lastTime t now w) = config w.
Proof.
  unfold loop. destruct (negb (isRunning (state w))); [reflexivity|].
  destruct (t - lastTime >=? 1000); [|reflexivity].
  match goal with |- context [if ?b then _ else _] => destruct b end;
    [rewrite completeSession_config|]; reflexivity.
Qed.

Lemma step_config w e : config (step w e) = config w.
Proof.
  destruct e; cbn.
  - rewrite startTimer_config. reflexivity.
  - apply pauseTimer_config.
  - unfold skipSession. rewrite completeSession_config.
    apply pauseTimer_config.
  - unfold fire. destruct (find _ (callbacks w)); [|reflexivity].
    rewrite loop_config. reflexivity.
  - apply startTimer_config.
  - apply completeSession_config.
Qed.

Lemma run_config es : forall w, config (run w es) = config w.
Proof.
  induction es as [|e es IH]; intros w; [reflexivity|].
  cbn. unfold run in IH. rewrite IH. apply step_config.
Qed.

Lemma parseUrlParams_sound params c :
  sound (parseUrlParams params c) =
  match get params "sound" with
  | Some s => if String.eqb s "" then sound c else s
  | None => sound c
  end.
Proof.
  unfold parseUrlParams.
  destruct (get params "sound") as [s|];
    [destruct (String.eqb s "")|]; destruct (get params "auto"); reflexivity.
Qed.

(** C10.  The sound parameter is stored as given whenever it is not empty;
    absent or empty, the default "bell" stays.  At a completion that is not
    skipped, a stored value other than "bell" and "none" is passed to
    [playSound], and the tone started (when the audio context exists) is
    the chime, never the bell. *)
Theorem sound_parameter_is_not_validated params html es now :
  let w := run (init params html) es in
  (forall s, get params "sound" = Some s -> s <> "" ->
             sound (config w) = s) /\
  (get params "sound" = None \/ get params "sound" = Some "" ->
   sound (config w) = "bell") /\
  (sound (config w) <> "bell" -> sound (config w) <> "none" ->
   playSoundCalls (completeSession false now w) =
     (playSoundCalls w ++ [sound (config w)])%list /\
   cues (completeSession false now w) =
     (cues w ++ (if audioCtx w then [Chime] else []))%list).
Proof.
  intros w.
  assert (Hc : sound (config w) =
               match get params "sound" with
               | Some s => if String.eqb s "" then "bell" else s
               | None => "bell"
               end).
  { unfold w. rewrite run_config. unfold init, boot, resetCycle, setModeTime.
    cbn. apply parseUrlParams_sound. }
  split; [|split].
  - intros s Hs Hne. rewrite Hc, Hs.
    destruct (String.eqb_spec s ""); [contradiction|reflexivity].
  - intros [H|H]; rewrite Hc, H; reflexivity.
  - intros Hb Hn.
    destruct (completeSession_audio false now w) as (Hp & Hu).
    rewrite Hp, Hu. cbn.
    destruct (String.eqb_spec (sound (config w)) "none"); [contradiction|].
    destruct (String.eqb_spec (sound (config w)) "bell"); [contradiction|].
    cbn. auto.
Qed.

Lemma sound_parameter_is_not_validated_witness :
  let params := [("sound", "gong")] in
  let w := run (init params blank) [ClickStart 0] in
  (get params "sound" = Some "gong" /\ "gong" <> "" /\
   sound (config w) = "gong") /\
  (sound (config w) <> "bell" /\ sound (config w) <> "none" /\
   cues (completeSession false 0 w) = [Chime]).
Proof.
  pose proof (sound_parameter_is_not_validated
                [("sound", "gong")] blank [ClickStart 0] 0) as (H1 & _ & H3).
  split.
  - split; [reflexivity|]. split; [discriminate|].
    apply H1; [reflexivity|discriminate].
  - split; [discriminate|]. split; [discriminate|].
    apply H3; discriminate.
Defined.

End Sound.

(* ================================================================= *)
(** ** Duration parameters *)

Section Durations.

Lemma digitValue_nonneg c d : digitValue c = Some d -> 0 <= d.
Proof.
  unfold digitValue. generalize (code c). intros n.
  destruct ((48 <=? n) && (n <=? 57)) eqn:E1.
  { intros [= <-]. apply andb_prop in E1. lia. }
  destruct ((97 <=? n) && (n <=? 122)) eqn:E2.
  { intros [= <-]. apply andb_prop in E2. lia. }
  destruct ((65 <=? n) && (n <=? 90)) eqn:E3.
  { intros [= <-]. apply andb_prop in E3. lia. }
  discriminate.
Qed.

Lemma digits_nonneg R s : Forall (fun d => 0 <= d) (digits R s).
Proof.
  induction s as [|c r IH]; cbn; [constructor|].
  unfold radixDigit. destruct (digitValue c) as [d|] eqn:E; [|constructor].
  destruct (d <? R); constructor; eauto using digitValue_nonneg.
Qed.

Lemma mathInt_nonneg R ds :
  0 <= R -> Forall (fun d => 0 <= d) ds -> 0 <= mathInt R ds.
Proof.
  intros HR H. unfold mathInt.
  assert (G : forall acc, 0 <= acc ->
                0 <= fold_left (fun acc d => acc * R + d) ds acc).
  { induction H as [|d ds Hd H IH]; intros acc Hacc; cbn; [assumption|].
    apply IH. nia. }
  apply G. lia.
Qed.

Lemma stripPrefix_radix s : 0 <= fst (stripPrefix s).
Proof.
  destruct s as [|c1 [|c2 r]]; [cbn; lia| |].
  - destruct c1 as [[] [] [] [] [] [] [] []]; cbn; lia.
  - unfold stripPrefix. destruct (isX c2);
      destruct c1 as [[] [] [] [] [] [] [] []]; cbv iota beta; cbn [fst]; lia.
Qed.

(** A value that begins with a minus sign never parses to a positive
    number. *)
Lemma parseInt_minus r :
  match parseInt (String "-" r) with Some n => n <= 0 | None => True end.
Proof.
  unfold parseInt. cbn [trimStart].
  replace (isWhiteSpace "-") with false by reflexivity.
  cbn [stripSign].
  pose proof (stripPrefix_radix r) as HR.
  destruct (stripPrefix r) as [R S2]. cbn in HR.
  pose proof (mathInt_nonneg R (digits R S2) HR (digits_nonneg R S2)).
  destruct (digits R S2); [exact I|]. lia.
Qed.

(** Decimal numerals, as [toString] writes them. *)
Lemma digits_uint_acc u : forall acc,
  fold_left (fun acc d => acc * 10 + d)
            (digits 10 (NilEmpty.string_of_uint u)) (Z.pos acc) =
  Z.pos (Pos.of_uint_acc u acc).
Proof.
  induction u; intros acc; cbn [NilEmpty.string_of_uint digits Pos.of_uint_acc];
    [reflexivity|..].
  all: match goal with
       | |- context [radixDigit 10 ?c] =>
           let v := eval vm_compute in (radixDigit 10 c) in
           change (radixDigit 10 c) with v
       end; cbn [fold_left]; rewrite <- IHu; f_equal; lia.
Qed.

Lemma digits_uint u :
  mathInt 10 (digits 10 (NilEmpty.string_of_uint u)) = Z.of_N (Pos.of_uint u).
Proof.
  unfold mathInt.
  induction u; cbn [NilEmpty.string_of_uint digits Pos.of_uint];
    [reflexivity|..].
  all: match goal with
       | |- context [radixDigit 10 ?c] =>
           let v := eval vm_compute in (radixDigit 10 c) in
           change (radixDigit 10 c) with v
       end; cbn [fold_left].
  - exact IHu.
  - apply (digits_uint_acc u 1).
  - apply (digits_uint_acc u 2).
  - apply (digits_uint_acc u 3).
  - apply (digits_uint_acc u 4).
  - apply (digits_uint_acc u 5).
  - apply (digits_uint_acc u 6).
  - apply (digits_uint_acc u 7).
  - apply (digits_uint_acc u 8).
  - apply (digits_uint_acc u 9).
Qed.

Lemma decimal_char c :
  isDecimalDigit c = true ->
  isWhiteSpace c = false /\ isX c = false /\
  radixDigit 10 c = Some (code c - 48) /\
  forall r, stripSign (String c r) = (1, String c r).
Proof.
  intros H.
  destruct c as [[] [] [] [] [] [] [] []]; vm_compute in H;
    try discriminate H; repeat split.
Qed.

Lemma stripPrefix_decimal s : allDecimal s = true -> stripPrefix s = (10, s).
Proof.
  destruct s as [|c1 [|c2 r]]; [reflexivity| |].
  - intros _. destruct c1 as [[] [] [] [] [] [] [] []]; reflexivity.
  - cbn [allDecimal]. intros H.
    apply andb_prop in H as (_ & H). apply andb_prop in H as (H & _).
    destruct (decimal_char c2 H) as (_ & Hx & _).
    unfold stripPrefix. rewrite Hx.
    destruct c1 as [[] [] [] [] [] [] [] []]; reflexivity.
Qed.

(** A numeral of decimal digits parses to its value, and to the opposite
    after a minus sign. *)
Lemma parseInt_decimal s :
  allDecimal s = true -> s <> "" ->
  parseInt s = Some (mathInt 10 (digits 10 s)) /\
  parseInt (String "-" s) = Some (- mathInt 10 (digits 10 s)).
Proof.
  intros Hs Hne. pose proof (stripPrefix_decimal s Hs) as Hp.
  destruct s as [|c r]; [contradiction|].
  cbn [allDecimal] in Hs. apply andb_prop in Hs as (Hc & Hr).
  destruct (decimal_char c Hc) as (Hw & _ & Hd & Hsign).
  unfold parseInt. cbn [trimStart].
  replace (isWhiteSpace "-") with false by reflexivity.
  rewrite Hw, Hsign. cbn [stripSign]. rewrite Hp.
  cbn [digits]. rewrite Hd. split; f_equal; lia.
Qed.

Lemma string_of_uint_decimal u :
  allDecimal (NilEmpty.string_of_uint u) = true.
Proof.
  induction u; cbn [NilEmpty.string_of_uint allDecimal];
    [reflexivity|..]; rewrite IHu; reflexivity.
Qed.

(** [parseInt] reads back what [toString] writes. *)
Lemma parseInt_toString z : parseInt (toString z) = Some z.
Proof.
  unfold toString. destruct z as [|p|p]; [reflexivity| |].
  - cbn [Z.to_int NilZero.string_of_int].
    pose proof (Unsigned.to_uint_nonnil p) as Hn.
    pose proof (DecimalPos.Unsigned.of_to p) as Hof.
    destruct (Pos.to_uint p) as [|u|u|u|u|u|u|u|u|u|u] eqn:E;
      [contradiction|..];
      cbn [NilZero.string_of_uint];
      match goal with
      | |- parseInt (NilEmpty.string_of_uint ?d) = _ =>
          destruct (parseInt_decimal (NilEmpty.string_of_uint d)
                      (string_of_uint_decimal d) ltac:(discriminate))
            as (-> & _);
          rewrite digits_uint, Hof; reflexivity
      end.
  - cbn [Z.to_int NilZero.string_of_int].
    pose proof (Unsigned.to_uint_nonnil p) as Hn.
    pose proof (DecimalPos.Unsigned.of_to p) as Hof.
    destruct (Pos.to_uint p) as [|u|u|u|u|u|u|u|u|u|u] eqn:E;
      [contradiction|..];
      cbn [NilZero.string_of_uint];
      match goal with
      | |- parseInt (String "-" (NilEmpty.string_of_uint ?d)) = _ =>
          destruct (parseInt_decimal (NilEmpty.string_of_uint d)
                      (string_of_uint_decimal d) ltac:(discriminate))
            as (_ & ->);
          rewrite digits_uint, Hof; reflexivity
      end.
Qed.

Lemma parseUrlParams_durations params c :
  work (parseUrlParams params c) = getPositiveIntParam params "work" 25 /\
  short (parseUrlParams params c) = getPositiveIntParam params "short" 5 /\
  long (parseUrlParams params c) = getPositiveIntParam params "long" 15.
Proof.
  unfold parseUrlParams.
  destruct (get params "auto"); destruct (get params "sound") as [sp|];
    try destruct (String.eqb sp ""); cbn; auto.
Qed.

Lemma durationOf_parseUrlParams params c key :
  In key ["work"; "short"; "long"] ->
  durationOf key (parseUrlParams params c) =
  getPositiveIntParam params key (durationOf key DEFAULTS).
Proof.
  destruct (parseUrlParams_durations params c) as (Hw & Hs & Hl).
  intros [<-|[<-|[<-|[]]]]; cbn; assumption.
Qed.

(** C6, as the code has it.  For each of work, short and long the
    configured duration is the default (25, 5, 15) when the parameter is
    absent, when [parseInt] reads no integer at the start of its value, and
    when the integer it reads is not positive; that covers every value that
    begins with a minus sign and the decimal numeral of every integer that
    is not positive.  When the leading integer is positive and a safe
    integer, it is the duration. *)
Theorem duration_falls_back_to_default params c key :
  In key ["work"; "short"; "long"] ->
  let d := durationOf key (parseUrlParams params c) in
  let dflt := durationOf key DEFAULTS in
  (get params key = None -> d = dflt) /\
  (forall v, get params key = Some v -> parseInt v = None -> d = dflt) /\
  (forall v n, get params key = Some v -> parseInt v = Some n -> n <= 0 ->
               d = dflt) /\
  (forall r, get params key = Some (String "-" r) -> d = dflt) /\
  (forall z, z <= 0 -> get params key = Some (toString z) -> d = dflt) /\
  (forall v n, get params key = Some v -> parseInt v = Some n ->
               0 < n <= MAX_SAFE_INTEGER -> d = n).
Proof.
  intros Hkey d dflt. unfold d, dflt.
  rewrite (durationOf_parseUrlParams params c key Hkey).
  unfold getPositiveIntParam.
  assert (Hle : forall v n, get params key = Some v -> parseInt v = Some n ->
                  n <= 0 ->
                  match parseInt (match get params key with
                                  | Some v => v
                                  | None => "null"
                                  end) with
                  | Some v => if v >? 0 then v else durationOf key DEFAULTS
                  | None => durationOf key DEFAULTS
                  end = durationOf key DEFAULTS).
  { intros v n -> -> Hn. destruct (Z.gtb_spec n 0); [lia|reflexivity]. }
  repeat split.
  - intros ->. reflexivity.
  - intros v -> ->. reflexivity.
  - exact Hle.
  - intros r Hr. pose proof (parseInt_minus r) as Hm.
    destruct (parseInt (String "-" r)) as [n|] eqn:E.
    + exact (Hle _ n Hr E Hm).
    + rewrite Hr, E. reflexivity.
  - intros z Hz Hv. exact (Hle _ z Hv (parseInt_toString z) Hz).
  - intros v n -> -> (Hn & _). destruct (Z.gtb_spec n 0); [reflexivity|lia].
Qed.

Lemma duration_falls_back_to_default_witness :
  In "work" ["work"; "short"; "long"] /\
  get [("work", "-5")] "work" = Some "-5" /\
  work (parseUrlParams [("work", "-5")] DEFAULTS) = 25.
Proof.
  split; [left; reflexivity|]. split; [reflexivity|].
  destruct (duration_falls_back_to_default [("work", "-5")] DEFAULTS "work")
    as (_ & _ & _ & H & _); [left; reflexivity|].
  apply (H "5"). reflexivity.
Defined.

(** C6 as claimed fails.  "2.5" and "12abc" are not positive integers,
    and the second is not a number at all, yet neither falls back to the
    default: [parseInt] keeps the leading digits, so the work duration becomes
    2 and 12 minutes. *)
Lemma duration_fallback_counterexample :
  isPositiveInteger "2.5" = false /\
  work (parseUrlParams [("work", "2.5")] DEFAULTS) = 2 /\
  work (parseUrlParams [("work", "2.5")] DEFAULTS) <> work DEFAULTS /\
  isPositiveInteger "12abc" = false /\
  work (parseUrlParams [("work", "12abc")] DEFAULTS) = 12 /\
  work (parseUrlParams [("work", "12abc")] DEFAULTS) <> work DEFAULTS.
Proof.
  vm_compute. repeat split; discriminate.
Qed.

End Durations.

(* ================================================================= *)
(** ** What one event does *)

Section Events.

Lemma fire_ticking h lastTime t now w :
  Ticking w h lastTime -> fire h t now w = animationFrame t now w.
Proof.
  intros Ht. rewrite (animationFrame_ticking w h lastTime t now Ht).
  destruct Ht as (_ & Hcb & _ & _).
  unfold fire, cancelAnimationFrame. rewrite Hcb. cbn.
  rewrite Nat.eqb_refl. cbn. reflexivity.
Qed.

Lemma nextMode_position (s1 s2 : State) :
  mode s1 = mode s2 -> cycleCount s1 = cycleCount s2 ->
  mode (nextMode s1) = mode (nextMode s2) /\
  cycleCount (nextMode s1) = cycleCount (nextMode s2).
Proof.
  destruct s1 as [m1 t1 r1 c1 i1], s2 as [m2 t2 r2 c2 i2]; cbn.
  intros -> ->. unfold nextMode; cbn.
  destruct m2; cbn; [|auto|auto].
  destruct (Z.rem c2 4 =? 0); [destruct (c2 >=? 3)|]; cbn; auto.
Qed.

Lemma completeSession_movesOn skipped now w s :
  mode (state w) = mode s -> cycleCount (state w) = cycleCount s ->
  movesOn (config w) s (state (completeSession skipped now w)).
Proof.
  intros Hm Hc. rewrite completeSession_eq. cbv zeta.
  unfold movesOn, advance.
  set (s0 := setTimeRemaining 0 (setIsRunning false (state w))).
  destruct (nextMode_position s0 s) as (Hm' & Hc').
  { unfold s0. destruct (state w); exact Hm. }
  { unfold s0. destruct (state w); exact Hc. }
  destruct (nextMode_frame s0) as (Hr & _).
  destruct (auto (config w)) eqn:Ha; cbn;
    destruct (nextMode s0) as [m' t' r' c' i']; cbn in *; subst; auto.
Qed.

Lemma startTimer_keeps now w :
  keeps (state w) (state (startTimer now w)) /\
  isRunning (state (startTimer now w)) = true.
Proof.
  unfold startTimer, keeps. destruct (isRunning (state w)) eqn:Hr; [auto|].
  destruct w as [c [m tr ir cc ti] a cbs nh pg ps cu]. cbn. auto.
Qed.

(** The frame callback of a reachable world, case by case. *)
Lemma fire_kinds h t now w :
  Inv w ->
  fire h t now w = w \/
  (exists lastTime,
     Ticking w h lastTime /\
     ((t - lastTime < 1000 /\ keeps (state w) (state (fire h t now w)) /\
       sameSession w (fire h t now w)) \/
      (1000 <= t - lastTime /\ 1 < timeRemaining (state w) /\
       ticksOnce (state w) (state (fire h t now w)) /\
       sameSession w (fire h t now w)) \/
      (1000 <= t - lastTime /\ timeRemaining (state w) = 1 /\
       fire h t now w =
       completeSession false now
         (mkWorld (config w) (setTimeRemaining 0 (state w)) (audioCtx w) []
                  (nextHandle w) (page w) (playSoundCalls w) (cues w))))).
Proof.
  intros HI. pose proof HI as (_ & Hl & Hn & _ & _ & Hpos).
  destruct (fire_cases h t now w Hl) as [H|(lt & Ht & _)]; [auto|].
  right. exists lt. split; [exact Ht|].
  rewrite (fire_ticking h lt t now w Ht).
  destruct (Z.lt_ge_cases (t - lt) 1000) as [Hd|Hd].
  - left. destruct (frame_early w h lt t now Ht Hn Hd)
      as (_ & _ & Hr & _ & Hs).
    split; [exact Hd|]. split; [|exact Hs].
    destruct Hs as (Hm & Hc & _). unfold keeps. auto.
  - right. destruct (Z.lt_ge_cases 1 (timeRemaining (state w))) as [H1|H1].
    + left. destruct (frame_late w h lt t now Ht Hn Hd H1)
        as (_ & _ & Hr & _ & Hs).
      split; [exact Hd|]. split; [exact H1|]. split; [|exact Hs].
      destruct Hs as (Hm & Hc & _). unfold ticksOnce.
      repeat split; auto; lia.
    + right. split; [exact Hd|]. split; [lia|].
      rewrite (frame_last w h lt t now Ht Hd H1).
      replace (timeRemaining (state w) - 1) with 0 by lia. reflexivity.
Qed.

(** What each event does to mode, counter and time left, given the
    invariant. *)
Lemma step_effects w e :
  Inv w ->
  let s := state w in
  let s' := state (step w e) in
  match e with
  | ClickStart _ | Start _ => keeps s s' /\ isRunning s' = true
  | ClickPause => keeps s s' /\ isRunning s' = false
  | ClickReset _ | Complete _ _ => movesOn (config w) s s'
  | Frame _ _ _ =>
      keeps s s' \/ ticksOnce s s' \/
      (timeRemaining s = 1 /\ movesOn (config w) s s')
  end.
Proof.
  intros Hreach. cbv zeta.
  destruct e as [now| |now|h t now|now|skipped now]; cbn [step].
  - apply (startTimer_keeps now (initAudio w)).
  - rewrite pauseTimer_state. unfold keeps. destruct (state w); cbn. auto.
  - unfold skipSession.
    pose proof (completeSession_movesOn true now (pauseTimer w) (state w))
      as H.
    rewrite pauseTimer_config, pauseTimer_state in H.
    apply H; destruct (state w); reflexivity.
  - destruct (fire_kinds h t now w Hreach)
      as [->|(lt & _ & [(_ & Hk & _)|[(_ & _ & Hk & _)|(_ & H1 & ->)]])].
    + left. unfold keeps. auto.
    + left. exact Hk.
    + right. left. exact Hk.
    + right. right. split; [exact H1|].
      apply (completeSession_movesOn false now
               (mkWorld (config w) (setTimeRemaining 0 (state w)) (audioCtx w)
                        [] (nextHandle w) (page w) (playSoundCalls w)
                        (cues w)) (state w));
        destruct (state w); reflexivity.
  - apply startTimer_keeps.
  - apply completeSession_movesOn; reflexivity.
Qed.

(** X1.  What each event does to mode, counter and time left in a
    reachable world whose configured durations are safe integers.  The
    Start button keeps them; a start keeps them and leaves the timer
    running; Pause keeps them and leaves it stopped; Skip/Reset and a
    completion end the session: next mode, its full duration on the clock,
    running exactly when auto-advance is on.  A frame callback keeps them,
    or takes one second off and leaves at least one, or ends the session -
    and that only when one second was left. *)
Theorem event_effects w e :
  Reachable w ->
  safeConfig (config w) ->
  let s := state w in
  let s' := state (step w e) in
  match e with
  | ClickStart _ => keeps s s'
  | Start _ => keeps s s' /\ isRunning s' = true
  | ClickPause => keeps s s' /\ isRunning s' = false
  | ClickReset _ | Complete _ _ => movesOn (config w) s s'
  | Frame _ _ _ =>
      keeps s s' \/ ticksOnce s s' \/
      (timeRemaining s = 1 /\ movesOn (config w) s s')
  end.
Proof.
  intros Hreach _.
  pose proof (step_effects w e (Reachable_Inv w Hreach)) as H.
  destruct e; try exact H. apply H.
Qed.

Lemma event_effects_witness :
  let w := run (init [] blank) [Start 0] in
  let s := state w in
  let s' := state (step w (Frame 1 1000 1000)) in
  (Reachable w /\ safeConfig (config w)) /\
  (keeps s s' \/ ticksOnce s s' \/
   (timeRemaining s = 1 /\ movesOn (config w) s s')) /\
  timeRemaining s' = 1499.
Proof.
  assert (H : Reachable (run (init [] blank) [Start 0])).
  { exists [], blank, [Start 0]. reflexivity. }
  assert (Hs : safeConfig (config (run (init [] blank) [Start 0]))).
  { vm_compute. repeat split; discriminate. }
  split; [split; [exact H|exact Hs]|]. split.
  - apply (event_effects (run (init [] blank) [Start 0])
                         (Frame 1 1000 1000) H Hs).
  - vm_compute. reflexivity.
Defined.

End Events.

(* ================================================================= *)
(** ** What every reachable world keeps *)

Section Kept.

Lemma Reachable_step w e : Reachable w -> Reachable (step w e).
Proof.
  intros (params & html & es & ->). exists params, html, (es ++ [e])%list.
  unfold run. rewrite fold_left_app. reflexivity.
Qed.

Lemma Reachable_induction (P : World -> Prop) :
  (forall params html, P (init params html)) ->
  (forall w e, Reachable w -> P w -> P (step w e)) ->
  forall w, Reachable w -> P w.
Proof.
  intros Hinit Hstep w (params & html & es & ->).
  induction es as [|e es IH] using rev_ind; [apply Hinit|].
  unfold run in *. rewrite fold_left_app. cbn [fold_left].
  apply Hstep; [|exact IH].
  exists params, html, es. reflexivity.
Qed.

Lemma init_config params html :
  config (init params html) = parseUrlParams params DEFAULTS.
Proof. reflexivity. Qed.

Lemma time_left_at_most_duration w :
  Reachable w ->
  timeRemaining (state w) <= durationSeconds (config w) (mode (state w)).
Proof.
  revert w. apply Reachable_induction.
  - intros params html. rewrite init_state. cbn. lia.
  - intros w e Hreach IH.
    pose proof (step_effects w e (Reachable_Inv w Hreach)) as He.
    cbv zeta in He. rewrite step_config.
    assert (Hk : forall s', keeps (state w) s' ->
              timeRemaining s' <= durationSeconds (config w) (mode s')).
    { intros s' (-> & _ & ->). exact IH. }
    assert (Hm : forall s', movesOn (config w) (state w) s' ->
              timeRemaining s' <= durationSeconds (config w) (mode s')).
    { intros s' (_ & _ & -> & _). lia. }
    destruct e; try (apply Hk, He); try (apply Hm, He).
    destruct He as [He|[(-> & _ & -> & _)|(_ & He)]]; [auto|lia|auto].
Qed.

(** X2.  In every reachable world the time left is at least one second;
    when the configured durations are safe integers it is at most the
    configured length of the current mode, and so a safe integer too. *)
Theorem time_left_within_session w :
  Reachable w ->
  0 < timeRemaining (state w) /\
  (safeConfig (config w) ->
   timeRemaining (state w) <= durationSeconds (config w) (mode (state w)) /\
   timeRemaining (state w) <= MAX_SAFE_INTEGER).
Proof.
  intros H. split; [apply (Reachable_Inv w H)|].
  intros (Hw & Hs & Hl). pose proof (time_left_at_most_duration w H) as Hb.
  split; [exact Hb|].
  unfold durationSeconds in Hb. destruct (mode (state w)); lia.
Qed.

Lemma time_left_within_session_witness :
  let w := run (init [] blank) [ClickReset 0] in
  (Reachable w /\ safeConfig (config w)) /\
  0 < timeRemaining (state w) <= durationSeconds (config w) (mode (state w)).
Proof.
  assert (H : Reachable (run (init [] blank) [ClickReset 0])).
  { exists [], blank, [ClickReset 0]. reflexivity. }
  assert (Hs : safeConfig (config (run (init [] blank) [ClickReset 0]))).
  { vm_compute. repeat split; discriminate. }
  split; [split; [exact H|exact Hs]|].
  destruct (time_left_within_session
              (run (init [] blank) [ClickReset 0]) H) as (H0 & H1).
  split; [exact H0|]. apply (H1 Hs).
Defined.

(** X3.  After every event the page shows the current state: what [render]
    last wrote is what it would write now. *)
Theorem page_shows_the_state w : Reachable w -> page w = view (state w).
Proof. intros H. apply Reachable_Inv in H. apply H. Qed.

Lemma page_shows_the_state_witness :
  let w := run (init [] blank) [Start 0; Frame 1 1000 1000] in
  Reachable w /\ page w = view (state w).
Proof.
  assert (H : Reachable (run (init [] blank) [Start 0; Frame 1 1000 1000])).
  { exists [], blank, [Start 0; Frame 1 1000 1000]. reflexivity. }
  split; [exact H|].
  apply (page_shows_the_state _ H).
Defined.

(** X4.  A reachable world has one pending frame callback while the timer
    runs, registered under the handle [state.timerInterval] holds, and none
    while it is stopped: there is never a second countdown loop and never a
    stale one. *)
Theorem one_pending_callback w :
  Reachable w ->
  (isRunning (state w) = true ->
   exists h lastTime,
     callbacks w = [(h, lastTime)] /\ timerInterval (state w) = Some h) /\
  (isRunning (state w) = false -> callbacks w = []).
Proof.
  intros H. apply Reachable_Inv in H. destruct H as (_ & Hl & _).
  unfold oneLoop in Hl. destruct (isRunning (state w)).
  - split; [|discriminate]. intros _.
    destruct Hl as (h & lt & (_ & Hcb & Hti & _) & _). eauto.
  - split; [discriminate|auto].
Qed.

Lemma one_pending_callback_witness :
  let w := run (init [] blank) [Start 0; ClickPause] in
  Reachable w /\ callbacks w = [].
Proof.
  assert (H : Reachable (run (init [] blank) [Start 0; ClickPause])).
  { exists [], blank, [Start 0; ClickPause]. reflexivity. }
  split; [exact H|].
  apply (one_pending_callback _ H). reflexivity.
Defined.

(** X5.  In a reachable world the counter goes with the mode: 1 to 4
    during work, 1 to 3 during a short break, 4 during a long break. *)
Theorem cycle_counter_follows_the_mode w :
  Reachable w ->
  match mode (state w) with
  | WORK => 1 <= cycleCount (state w) <= 4
  | SHORT => 1 <= cycleCount (state w) <= 3
  | LONG => cycleCount (state w) = 4
  end.
Proof. intros H. apply Reachable_Inv in H. apply H. Qed.

Lemma cycle_counter_follows_the_mode_witness :
  let w := run (init [] blank) (repeat (ClickReset 0) 7) in
  Reachable w /\ mode (state w) = LONG /\ cycleCount (state w) = 4.
Proof.
  assert (H : Reachable (run (init [] blank) (repeat (ClickReset 0) 7))).
  { exists [], blank, (repeat (ClickReset 0) 7). reflexivity. }
  split; [exact H|].
  pose proof (cycle_counter_follows_the_mode _ H) as Hc.
  assert (Hm : mode (state (run (init [] blank) (repeat (ClickReset 0) 7)))
               = LONG) by (vm_compute; reflexivity).
  rewrite Hm in Hc. split; [exact Hm|exact Hc].
Defined.

(** X6.  The configuration read at start-up never changes afterwards, and
    its three durations are positive whatever the parameters were. *)
Theorem config_is_fixed_at_startup params html es :
  let w := run (init params html) es in
  config w = parseUrlParams params DEFAULTS /\
  0 < work (config w) /\ 0 < short (config w) /\ 0 < long (config w).
Proof.
  cbv zeta. rewrite run_config, init_config.
  split; [reflexivity|]. apply parseUrlParams_valid.
Qed.

Lemma nextMode_changes_mode (s : State) : mode (nextMode s) <> mode s.
Proof.
  destruct s as [m tr ir cc ti]. unfold nextMode; cbn.
  destruct m; cbn; try discriminate.
  destruct (Z.rem cc 4 =? 0); [destruct (cc >=? 3)|]; cbn; discriminate.
Qed.

(** X18.  Within a session the clock never goes up: in a reachable world
    whose configured durations are safe integers, an event that leaves the
    timer in the same mode leaves at most as much time as there was, and an
    event that changes the mode leaves the new mode's full duration. *)
Theorem clock_never_goes_up_within_a_session w e :
  Reachable w ->
  safeConfig (config w) ->
  (mode (state (step w e)) = mode (state w) ->
   timeRemaining (state (step w e)) <= timeRemaining (state w)) /\
  (mode (state (step w e)) <> mode (state w) ->
   timeRemaining (state (step w e)) =
   durationSeconds (config w) (mode (state (step w e)))).
Proof.
  intros Hreach _.
  pose proof (step_effects w e (Reachable_Inv w Hreach)) as He.
  cbv zeta in He.
  pose proof (nextMode_changes_mode (state w)) as Hn.
  assert (Hk : forall s', keeps (state w) s' ->
            (mode s' = mode (state w) ->
             timeRemaining s' <= timeRemaining (state w)) /\
            (mode s' <> mode (state w) ->
             timeRemaining s' = durationSeconds (config w) (mode s'))).
  { intros s' (Hm & _ & Ht). split; [lia|contradiction]. }
  assert (Ht : forall s', ticksOnce (state w) s' ->
            (mode s' = mode (state w) ->
             timeRemaining s' <= timeRemaining (state w)) /\
            (mode s' <> mode (state w) ->
             timeRemaining s' = durationSeconds (config w) (mode s'))).
  { intros s' (Hm & _ & Ht & _). split; [lia|contradiction]. }
  assert (Hm : forall s', movesOn (config w) (state w) s' ->
            (mode s' = mode (state w) ->
             timeRemaining s' <= timeRemaining (state w)) /\
            (mode s' <> mode (state w) ->
             timeRemaining s' = durationSeconds (config w) (mode s'))).
  { intros s' (Hm & _ & Ht' & _). split; [congruence|auto]. }
  destruct e; try (apply Hk, He); try (apply Hm, He).
  destruct He as [He|[He|(_ & He)]]; auto.
Qed.

Lemma clock_never_goes_up_within_a_session_witness :
  let w := run (init [] blank) [Start 0] in
  (Reachable w /\ safeConfig (config w)) /\
  timeRemaining (state (step w (Frame 1 2500 2500))) <= timeRemaining (state w).
Proof.
  assert (H : Reachable (run (init [] blank) [Start 0])).
  { exists [], blank, [Start 0]. reflexivity. }
  assert (Hs : safeConfig (config (run (init [] blank) [Start 0]))).
  { vm_compute. repeat split; discriminate. }
  split; [split; [exact H|exact Hs]|].
  apply (clock_never_goes_up_within_a_session _ (Frame 1 2500 2500) H Hs).
  vm_compute. reflexivity.
Defined.

(** X19.  A frame callback that was cancelled, or whose handle is not the
    one [state.timerInterval] holds, never runs: in a reachable world it
    changes nothing at all.  So nothing ticks after Pause or after a session
    ended without auto-advance. *)
Theorem stale_frames_do_nothing w h t now :
  Reachable w ->
  isRunning (state w) = false \/ timerInterval (state w) <> Some h ->
  fire h t now w = w.
Proof.
  intros Hreach Hs. apply Reachable_Inv in Hreach.
  destruct Hreach as (_ & Hl & _). unfold oneLoop in Hl. unfold fire.
  destruct (isRunning (state w)).
  - destruct Hs as [Hs|Hs]; [discriminate|].
    destruct Hl as (h0 & lt & (_ & Hcb & Hti & _) & _).
    rewrite Hcb. cbn. destruct (Nat.eqb_spec h0 h); [|reflexivity].
    subst h0. contradiction.
  - rewrite Hl. reflexivity.
Qed.

Lemma stale_frames_do_nothing_witness :
  let w := run (init [] blank) [Start 0; ClickPause] in
  Reachable w /\ isRunning (state w) = false /\ fire 1 5000 5000 w = w.
Proof.
  assert (H : Reachable (run (init [] blank) [Start 0; ClickPause])).
  { exists [], blank, [Start 0; ClickPause]. reflexivity. }
  split; [exact H|]. split; [reflexivity|].
  apply (stale_frames_do_nothing _ 1%nat 5000 5000 H).
  left. reflexivity.
Defined.

End Kept.

(* ================================================================= *)
(** ** The audio output along a run *)

Section AudioRuns.

Lemma startTimer_audio now w :
  audioCtx (startTimer now w) = audioCtx w /\
  playSoundCalls (startTimer now w) = playSoundCalls w /\
  cues (startTimer now w) = cues w.
Proof. unfold startTimer. destruct (isRunning (state w)); cbn; auto. Qed.

Lemma completeSession_audioCtx skipped now w :
  audioCtx (completeSession skipped now w) = audioCtx w.
Proof.
  rewrite completeSession_eq. cbv zeta. destruct (auto (config w)); reflexivity.
Qed.

Lemma completeSession_logs skipped now w0 w :
  config w0 = config w -> audioCtx w0 = audioCtx w ->
  playSoundCalls w0 = playSoundCalls w -> cues w0 = cues w ->
  exists plays : bool,
    (plays = true -> sound (config w) <> "none") /\
    (skipped = true -> plays = false) /\
    playSoundCalls (completeSession skipped now w0) =
      (playSoundCalls w ++ (if plays then [sound (config w)] else []))%list /\
    cues (completeSession skipped now w0) =
      (cues w ++ (if plays && audioCtx w
                  then [cueOf (sound (config w))] else []))%list.
Proof.
  intros Hc Ha Hp Hu.
  destruct (completeSession_audio skipped now w0) as (H1 & H2).
  cbv zeta in H1, H2. rewrite Hc, Ha, Hp, Hu in *.
  exists (negb skipped && negb (String.eqb (sound (config w)) "none")).
  split; [|split; [|split; [exact H1|exact H2]]].
  - intros H. apply andb_prop in H as (_ & H).
    destruct (String.eqb_spec (sound (config w)) "none");
      [discriminate|assumption].
  - intros ->. reflexivity.
Qed.

Lemma logs_unchanged w0 w :
  playSoundCalls w0 = playSoundCalls w -> cues w0 = cues w ->
  exists plays : bool,
    (plays = true -> sound (config w) <> "none") /\
    playSoundCalls w0 =
      (playSoundCalls w ++ (if plays then [sound (config w)] else []))%list /\
    cues w0 =
      (cues w ++ (if plays && audioCtx w
                  then [cueOf (sound (config w))] else []))%list.
Proof.
  intros Hp Hu. exists false. cbn. rewrite !app_nil_r.
  split; [discriminate|auto].
Qed.

(** What one event adds to the audio logs. *)
Lemma step_audio w e :
  Inv w ->
  audioCtx (step w e) = audioCtx w || isClickStart e /\
  exists plays : bool,
    (plays = true -> sound (config w) <> "none") /\
    playSoundCalls (step w e) =
      (playSoundCalls w ++ (if plays then [sound (config w)] else []))%list /\
    cues (step w e) =
      (cues w ++ (if plays && audioCtx w
                  then [cueOf (sound (config w))] else []))%list.
Proof.
  intros HI.
  destruct e as [now| |now|h t now|now|skipped now]; cbn [step isClickStart].
  - destruct (startTimer_audio now (initAudio w)) as (Ha & Hp & Hu).
    rewrite Ha. cbn. rewrite orb_true_r. split; [reflexivity|].
    apply logs_unchanged; assumption.
  - destruct (pauseTimer_frame w) as (Ha & _ & Hp & Hu).
    rewrite Ha, orb_false_r. split; [reflexivity|].
    apply logs_unchanged; assumption.
  - unfold skipSession. rewrite completeSession_audioCtx.
    destruct (pauseTimer_frame w) as (Ha & _ & Hp & Hu).
    rewrite Ha, orb_false_r. split; [reflexivity|].
    destruct (completeSession_logs true now (pauseTimer w) w
                (pauseTimer_config w) Ha Hp Hu) as (plays & H1 & _ & H3).
    exists plays. auto.
  - rewrite orb_false_r.
    destruct (fire_kinds h t now w HI)
      as [->|(lt & _ & [(_ & _ & Hs)|[(_ & _ & _ & Hs)|(_ & _ & ->)]])].
    + split; [reflexivity|]. apply logs_unchanged; reflexivity.
    + destruct Hs as (_ & _ & _ & _ & Ha & Hp & Hu).
      split; [exact Ha|]. apply logs_unchanged; assumption.
    + destruct Hs as (_ & _ & _ & _ & Ha & Hp & Hu).
      split; [exact Ha|]. apply logs_unchanged; assumption.
    + rewrite completeSession_audioCtx. split; [reflexivity|].
      destruct (completeSession_logs false now
                  (mkWorld (config w) (setTimeRemaining 0 (state w))
                           (audioCtx w) [] (nextHandle w) (page w)
                           (playSoundCalls w) (cues w)) w
                  eq_refl eq_refl eq_refl eq_refl) as (plays & H1 & _ & H3).
      exists plays. auto.
  - destruct (startTimer_audio now w) as (Ha & Hp & Hu).
    rewrite Ha, orb_false_r. split; [reflexivity|].
    apply logs_unchanged; assumption.
  - rewrite completeSession_audioCtx, orb_false_r. split; [reflexivity|].
    destruct (completeSession_logs skipped now w w
                eq_refl eq_refl eq_refl eq_refl) as (plays & H1 & _ & H3).
    exists plays. auto.
Qed.

(** X7.  Whatever happened to the page, every call of [playSound] was made
    with the configured sound, which then is not "none"; every tone started
    is the bell when that sound is "bell" and the chime otherwise; and no
    tone was started without such a call. *)
Theorem audio_log_matches_the_sound w :
  Reachable w ->
  Forall (fun type => type = sound (config w) /\ type <> "none")
         (playSoundCalls w) /\
  Forall (fun cue => cue = cueOf (sound (config w))) (cues w) /\
  (List.length (cues w) <= List.length (playSoundCalls w))%nat.
Proof.
  revert w. apply Reachable_induction.
  - intros params html. cbn. repeat split; constructor.
  - intros w e Hreach (IH1 & IH2 & IH3).
    destruct (step_audio w e (Reachable_Inv w Hreach))
      as (_ & plays & Hn & -> & ->).
    rewrite step_config.
    destruct plays; cbn [andb].
    + specialize (Hn eq_refl). split; [|split].
      * apply Forall_app. split; [exact IH1|]. constructor; auto.
      * apply Forall_app. split; [exact IH2|].
        destruct (audioCtx w); constructor; auto.
      * rewrite !length_app. destruct (audioCtx w); cbn; lia.
    + rewrite !app_nil_r. auto.
Qed.

Lemma audio_log_matches_the_sound_witness :
  let w := run (init [("work", "1"); ("sound", "gong")] blank)
               [ClickStart 0; Complete false 0] in
  Reachable w /\ playSoundCalls w = ["gong"] /\ cues w = [Chime] /\
  Forall (fun cue => cue = cueOf (sound (config w))) (cues w).
Proof.
  assert (H : Reachable (run (init [("work", "1"); ("sound", "gong")] blank)
                             [ClickStart 0; Complete false 0])).
  { exists [("work", "1"); ("sound", "gong")], blank,
           [ClickStart 0; Complete false 0]. reflexivity. }
  split; [exact H|]. split; [vm_compute; reflexivity|].
  split; [vm_compute; reflexivity|].
  apply (audio_log_matches_the_sound _ H).
Defined.

(** X8.  The audio context is created by the Start button only.  A run
    without a press on Start - Skip/Reset with auto-advance, say - starts no
    tone however many sessions complete. *)
Theorem no_tone_before_the_start_button params html es :
  forallb (fun e => negb (isClickStart e)) es = true ->
  let w := run (init params html) es in
  audioCtx w = false /\ cues w = [].
Proof.
  intros Hes. cbv zeta.
  induction es as [|e es IH] using rev_ind; [split; reflexivity|].
  rewrite forallb_app in Hes. apply andb_prop in Hes as (Hes & He).
  cbn in He. rewrite andb_true_r in He. apply negb_true_iff in He.
  destruct (IH Hes) as (Ha & Hc).
  unfold run in *. rewrite fold_left_app. cbn [fold_left].
  set (w := fold_left step es (init params html)) in *.
  assert (HI : Inv w) by (apply Inv_run, Inv_init).
  destruct (step_audio w e HI) as (Ha' & plays & _ & _ & Hc').
  rewrite Ha', Hc', Ha, Hc, He, andb_false_r. split; reflexivity.
Qed.

Lemma no_tone_before_the_start_button_witness :
  let es := [ClickReset 0; Frame 1 1000 1000; ClickReset 0;
             Complete false 0] in
  let w := run (init [("auto", "1")] blank) es in
  forallb (fun e => negb (isClickStart e)) es = true /\
  isRunning (state w) = true /\ playSoundCalls w = ["bell"] /\
  audioCtx w = false /\ cues w = [].
Proof.
  split; [reflexivity|]. split; [vm_compute; reflexivity|].
  split; [vm_compute; reflexivity|].
  apply (no_tone_before_the_start_button [("auto", "1")] blank
           [ClickReset 0; Frame 1 1000 1000; ClickReset 0; Complete false 0]).
  reflexivity.
Defined.

End AudioRuns.

(* ================================================================= *)
(** ** Sessions that run to their end *)

Section WholeSessions.

Lemma onEverySecond_accounted t0 n ts :
  onEverySecond t0 n ts = true ->
  accounted t0 ts = n /\ origin t0 ts = t0 + 1000 * Z.of_nat n.
Proof.
  unfold onEverySecond. intros H.
  apply andb_prop in H as (H & Hup). apply andb_prop in H as (Hinc & Hsec).
  rewrite forallb_forall in Hup, Hsec.
  destruct (accounted_every_second ts t0 0 (Z.of_nat n) t0) as (Ha & Ho).
  - lia.
  - exact Hinc.
  - intros t Ht. pose proof (increasing_In ts t0 t Hinc Ht).
    apply Hup, Z.leb_le in Ht. lia.
  - intros k Hk. specialize (Hsec (Z.to_nat k)). rewrite in_seq in Hsec.
    specialize (Hsec ltac:(lia)). apply existsb_exists in Hsec.
    destruct Hsec as (x & Hx & He). apply Z.eqb_eq in He.
    rewrite Z2Nat.id in He by lia. subst x. exact Hx.
  - replace (t0 + 1000 * 0) with t0 in Ha, Ho by lia. split; [lia|exact Ho].
Qed.

(** X9.  With a frame on each whole second, and whatever frames in
    between, the countdown loses nothing: starting from a time left that is
    a safe integer, after [n] seconds that do not exhaust the session
    exactly [n] seconds are off, and the next second is counted from the
    last whole one. *)
Theorem countdown_is_exact_on_whole_seconds w0 t0 fs n :
  Reachable w0 ->
  isRunning (state w0) = false ->
  timeRemaining (state w0) <= MAX_SAFE_INTEGER ->
  onEverySecond t0 n (map fst fs) = true ->
  Z.of_nat n < timeRemaining (state w0) ->
  let w := frames fs (startTimer t0 w0) in
  timeRemaining (state w) = timeRemaining (state w0) - Z.of_nat n /\
  mode (state w) = mode (state w0) /\
  cycleCount (state w) = cycleCount (state w0) /\
  isRunning (state w) = true /\
  exists h, callbacks w = [(h, t0 + 1000 * Z.of_nat n)].
Proof.
  intros Hreach Hr _ Hsec Hlt. cbv zeta.
  pose proof (Reachable_Inv w0 Hreach) as HI.
  destruct (startTimer_ticking t0 w0 HI Hr) as (Ht & Hn & Hs & _).
  destruct (onEverySecond_accounted t0 n (map fst fs) Hsec) as (Ha & Ho).
  destruct (frames_count fs (startTimer t0 w0) (nextHandle w0) t0 Ht Hn)
    as ((h' & Ht') & _ & Hd & Hm & Hc & _).
  { rewrite Ha, Hs. destruct (state w0); cbn in *. lia. }
  rewrite Ha in Hd. rewrite Ho in Ht'. rewrite Hs in Hd, Hm, Hc.
  destruct (state w0) as [m tr ir cc ti]; cbn in *.
  destruct Ht' as (Hrun & Hcb & _).
  repeat split; auto. exists h'. exact Hcb.
Qed.

Lemma countdown_is_exact_on_whole_seconds_witness :
  let fs := [(400, 400); (1000, 1001); (1900, 1900); (2000, 2000);
             (2999, 2999); (3000, 3002)] in
  let w0 := init [] blank in
  let w := frames fs (startTimer 0 w0) in
  onEverySecond 0 3 (map fst fs) = true /\
  timeRemaining (state w) = 1500 - 3 /\
  isRunning (state w) = true.
Proof.
  split; [reflexivity|].
  destruct (countdown_is_exact_on_whole_seconds (init [] blank) 0
              [(400, 400); (1000, 1001); (1900, 1900); (2000, 2000);
               (2999, 2999); (3000, 3002)] 3)
    as (H1 & _ & _ & H4 & _).
  - apply Reachable_init.
  - reflexivity.
  - vm_compute. discriminate.
  - reflexivity.
  - reflexivity.
  - split; [exact H1|exact H4].
Defined.

(** X10.  With configured durations that are safe integers, a session
    started with [n] seconds on the clock, a safe integer too, and given
    [n] seconds of frames, one on each whole second, ends on the last of
    them and not before: the next mode is entered with its full duration,
    running exactly when auto-advance is on, and [playSound] is called once
    with the configured sound unless that is "none". *)
Theorem session_ends_when_time_is_up w0 t0 fs n :
  Reachable w0 ->
  safeConfig (config w0) ->
  isRunning (state w0) = false ->
  timeRemaining (state w0) = Z.of_nat n ->
  Z.of_nat n <= MAX_SAFE_INTEGER ->
  onEverySecond t0 n (map fst fs) = true ->
  let w := frames fs (startTimer t0 w0) in
  movesOn (config w0) (state w0) (state w) /\
  config w = config w0 /\
  playSoundCalls w =
    (playSoundCalls w0 ++
     (if String.eqb (sound (config w0)) "none" then []
      else [sound (config w0)]))%list.
Proof.
  intros Hreach _ Hr Hrem _ Hsec. cbv zeta.
  pose proof (Reachable_Inv w0 Hreach) as HI.
  pose proof HI as (_ & _ & _ & _ & _ & Hpos).
  destruct n as [|m]; [cbn in Hrem; lia|].
  destruct (startTimer_ticking t0 w0 HI Hr)
    as (Ht & Hn & Hs & Hc & _ & Hp & _).
  destruct (onEverySecond_split t0 m (map fst fs) Hsec)
    as (pre & Hts & Hinc & Hrange & Hin).
  apply map_eq_app in Hts as (fpre & flast & -> & Hpre & Hlast).
  destruct flast as [|[t now] [|? ?]]; try discriminate.
  apply (f_equal (fun l => hd 0 l)) in Hlast. cbn [hd map fst] in Hlast.
  subst pre.
  assert (Hrange' : forall x, In x (map fst fpre) ->
            t0 + 1000 * 0 <= x < t0 + 1000 * (Z.of_nat m + 1)).
  { intros x Hx. specialize (Hrange x Hx). lia. }
  destruct (accounted_every_second (map fst fpre) t0 0 (Z.of_nat m) t0
              ltac:(lia) Hinc Hrange' Hin) as (Ha & Ho).
  replace (t0 + 1000 * 0) with t0 in Ha, Ho by lia.
  assert (Hrem0 : timeRemaining (state (startTimer t0 w0)) =
                  Z.of_nat m + 1).
  { rewrite Hs. destruct (state w0); cbn in *. lia. }
  destruct (frames_count fpre (startTimer t0 w0) (nextHandle w0) t0 Ht Hn)
    as ((h' & Ht') & _ & Hrem1 & Hm & Hcc & _ & Hcf & _ & Hp' & _).
  { rewrite Hrem0. lia. }
  rewrite Hrem0, Ha in Hrem1. rewrite Ho in Ht'.
  rewrite frames_app.
  set (w1 := frames fpre (startTimer t0 w0)) in *.
  change (frames [(t, now)] w1) with (animationFrame t now w1).
  rewrite (frame_last w1 h' (t0 + 1000 * Z.of_nat m) t now Ht') by lia.
  set (W := mkWorld (config w1)
              (setTimeRemaining (timeRemaining (state w1) - 1) (state w1))
              (audioCtx w1) [] (nextHandle w1) (page w1) (playSoundCalls w1)
              (cues w1)).
  assert (HcW : config W = config w0) by (cbn; congruence).
  split; [|split].
  - rewrite <- HcW. apply completeSession_movesOn.
    + cbn. rewrite Hs in Hm. destruct (state w1), (state w0); cbn in *.
      exact Hm.
    + cbn. rewrite Hs in Hcc. destruct (state w1), (state w0); cbn in *.
      exact Hcc.
  - rewrite completeSession_config. exact HcW.
  - destruct (completeSession_audio false now W) as (H1 & _).
    cbv zeta in H1. rewrite H1, HcW. cbn [playSoundCalls W negb andb].
    rewrite Hp', Hp.
    destruct (String.eqb (sound (config w0)) "none"); reflexivity.
Qed.

Lemma session_ends_when_time_is_up_witness :
  let w0 := init [("work", "1"); ("short", "2")] blank in
  let fs := map (fun k => (500 * Z.of_nat k, 500 * Z.of_nat k)) (seq 1 120) in
  let w := frames fs (startTimer 0 w0) in
  onEverySecond 0 60 (map fst fs) = true /\
  movesOn (config w0) (state w0) (state w) /\
  mode (state w) = SHORT /\ timeRemaining (state w) = 120.
Proof.
  split; [vm_compute; reflexivity|]. split.
  - apply (session_ends_when_time_is_up
             (init [("work", "1"); ("short", "2")] blank) 0
             (map (fun k => (500 * Z.of_nat k, 500 * Z.of_nat k))
                  (seq 1 120)) 60).
    + apply Reachable_init.
    + vm_compute. repeat split; discriminate.
    + reflexivity.
    + vm_compute. reflexivity.
    + vm_compute. discriminate.
    + vm_compute. reflexivity.
  - vm_compute. split; reflexivity.
Defined.

End WholeSessions.

(* ================================================================= *)
(** ** How the controls compose *)

Section Controls.

Lemma filter_twice {A} (f : A -> bool) (l : list A) :
  filter f (filter f l) = filter f l.
Proof.
  induction l as [|x l IH]; [reflexivity|]. cbn.
  destruct (f x) eqn:E; cbn; [rewrite E, IH|]; auto.
Qed.

Lemma pauseTimer_callbacks w :
  callbacks (pauseTimer w) =
  match timerInterval (state w) with
  | Some h =>
      if Nat.eqb h 0 then callbacks w
      else filter (fun cb => negb (Nat.eqb (fst cb) h)) (callbacks w)
  | None => callbacks w
  end.
Proof.
  unfold pauseTimer. destruct w as [c [m tr ir cc ti] a cbs nh pg ps cu].
  destruct ti as [h|]; cbn; [destruct (Nat.eqb h 0)|]; reflexivity.
Qed.

(** [pauseTimer] twice is [pauseTimer] once, in any world. *)
Lemma pauseTimer_twice w : pauseTimer (pauseTimer w) = pauseTimer w.
Proof.
  assert (E := pauseTimer_record w). rewrite pauseTimer_callbacks in E.
  rewrite (pauseTimer_record (pauseTimer w)).
  rewrite (pauseTimer_callbacks (pauseTimer w)).
  rewrite pauseTimer_config, pauseTimer_state.
  destruct (pauseTimer_frame w) as (-> & -> & -> & ->).
  rewrite pauseTimer_callbacks, E.
  destruct (state w) as [m tr ir cc ti].
  unfold setIsRunning. cbn [mode timeRemaining isRunning cycleCount
                            timerInterval].
  destruct ti as [h|]; [destruct (Nat.eqb h 0)|];
    rewrite ?filter_twice; reflexivity.
Qed.

Lemma advance_stopped c s : advance c (setIsRunning false s) = advance c s.
Proof. destruct s; reflexivity. Qed.

(** X11.  In any world Skip/Reset is a completion flagged as skipped, and
    it leaves exactly what an unskipped completion leaves - state, pending
    callbacks, page, configuration - except for the audio logs. *)
Theorem skip_is_a_silent_completion now w :
  skipSession now w = completeSession true now w /\
  state (skipSession now w) = state (completeSession false now w) /\
  callbacks (skipSession now w) = callbacks (completeSession false now w) /\
  page (skipSession now w) = page (completeSession false now w) /\
  config (skipSession now w) = config (completeSession false now w) /\
  nextHandle (skipSession now w) = nextHandle (completeSession false now w) /\
  audioCtx (skipSession now w) = audioCtx (completeSession false now w).
Proof.
  assert (H : skipSession now w = completeSession true now w).
  { unfold skipSession. rewrite !completeSession_eq. cbv zeta.
    rewrite pauseTimer_twice, pauseTimer_config, pauseTimer_state.
    destruct (pauseTimer_frame w) as (-> & -> & -> & ->).
    rewrite advance_stopped. reflexivity. }
  split; [exact H|]. rewrite H, !completeSession_eq. cbv zeta.
  destruct (auto (config w)); cbn; repeat split.
Qed.

(** X12.  Pausing a reachable timer and starting it again keeps mode,
    counter and time left, and leaves one loop whose origin is the time of
    the new start: the part of a second that had gone by before the pause
    is forgotten, and no frame takes a second off until a full second after
    the restart. *)
Theorem pause_then_start_restarts_the_second now w :
  Reachable w ->
  let w' := startTimer now (pauseTimer w) in
  keeps (state w) (state w') /\
  isRunning (state w') = true /\
  callbacks w' = [(nextHandle w, now)] /\
  forall t now', t - now < 1000 ->
    keeps (state w') (state (animationFrame t now' w')).
Proof.
  intros Hreach. apply Reachable_Inv in Hreach.
  pose proof Hreach as (_ & Hl & Hn & _).
  cbv zeta. rewrite (pauseTimer_eq w (oneLoop_callbacks w Hl)).
  set (w1 := mkWorld (config w) (setIsRunning false (state w)) (audioCtx w) []
               (nextHandle w) (view (setIsRunning false (state w)))
               (playSoundCalls w) (cues w)).
  assert (Ht : Ticking (startTimer now w1) (nextHandle w) now).
  { unfold Ticking, startTimer. cbn. auto. }
  split; [|split; [reflexivity|split; [reflexivity|]]].
  - unfold keeps. cbn. destruct (state w); cbn. auto.
  - intros t now' Hd.
    destruct (frame_early (startTimer now w1) (nextHandle w) now t now' Ht)
      as (_ & _ & Hr & _ & Hm & Hc & _); [cbn; lia|exact Hd|].
    unfold keeps. auto.
Qed.

Lemma pause_then_start_restarts_the_second_witness :
  let w := run (init [] blank) [Start 0] in
  let w' := startTimer 999 (pauseTimer w) in
  Reachable w /\
  callbacks w' = [(nextHandle w, 999)] /\
  timeRemaining (state (animationFrame 1998 1998 w')) = 1500.
Proof.
  assert (H : Reachable (run (init [] blank) [Start 0])).
  { exists [], blank, [Start 0]. reflexivity. }
  split; [exact H|].
  destruct (pause_then_start_restarts_the_second 999 _ H)
    as (_ & _ & Hcb & Hf).
  split; [exact Hcb|].
  destruct (Hf 1998 1998 ltac:(lia)) as (_ & _ & ->).
  vm_compute. reflexivity.
Defined.

End Controls.

(* ================================================================= *)
(** ** The cycle, session by session *)

Section Cycle.

Lemma next_in_table (s : State) (k : nat) :
  (k < 8)%nat ->
  (mode s, cycleCount s) = nth k cycleTable (WORK, 1) ->
  (mode (nextMode s), cycleCount (nextMode s)) =
  nth ((k + 1) mod 8) cycleTable (WORK, 1).
Proof.
  intros Hk. destruct s as [m tr ir cc ti].
  do 8 (destruct k as [|k]; [cbn; intros [= -> ->]; reflexivity|]). lia.
Qed.

Lemma endsSession_position w e :
  endsSession e = true ->
  mode (state (step w e)) = mode (nextMode (state w)) /\
  cycleCount (state (step w e)) = cycleCount (nextMode (state w)).
Proof.
  destruct e as [now| |now|h t now|now|skipped now]; try discriminate;
    intros _; cbn [step].
  - unfold skipSession.
    destruct (completeSession_movesOn true now (pauseTimer w) (state w))
      as (Hm & Hc & _); [| |auto];
      rewrite pauseTimer_state; destruct (state w); reflexivity.
  - destruct (completeSession_movesOn skipped now w (state w) eq_refl eq_refl)
      as (Hm & Hc & _). auto.
Qed.

(** X13.  Sessions ended one after the other - by Skip/Reset or by
    completion, skipped or not, with auto-advance on or off - take the timer
    through WORK 1, SHORT 1, WORK 2, SHORT 2, WORK 3, SHORT 3, WORK 4, LONG 4
    and round again: after [n] of them it is at entry [n mod 8]. *)
Theorem position_after_sessions params html es :
  forallb endsSession es = true ->
  position (run (init params html) es) =
  nth (List.length es mod 8) cycleTable (WORK, 1).
Proof.
  induction es as [|e es IH] using rev_ind; intros Hes; [reflexivity|].
  rewrite forallb_app in Hes. apply andb_prop in Hes as (Hes & He).
  cbn in He. rewrite andb_true_r in He. specialize (IH Hes).
  unfold run in *. rewrite fold_left_app. cbn [fold_left].
  set (w := fold_left step es (init params html)) in *.
  destruct (endsSession_position w e He) as (Hm & Hc).
  unfold position in *. rewrite Hm, Hc.
  rewrite (next_in_table (state w) (List.length es mod 8)).
  - rewrite length_app. cbn [List.length].
    rewrite Nat.Div0.add_mod_idemp_l. reflexivity.
  - apply Nat.mod_upper_bound. discriminate.
  - exact IH.
Qed.

Lemma position_after_sessions_witness :
  let es := [ClickReset 0; Complete false 5; ClickReset 9; Complete true 12;
             ClickReset 20; ClickReset 21; Complete false 30; ClickReset 31;
             ClickReset 40; Complete false 50] in
  forallb endsSession es = true /\
  position (run (init [("auto", "1")] blank) es) = (WORK, 2).
Proof.
  split; [reflexivity|].
  apply (position_after_sessions [("auto", "1")] blank
           [ClickReset 0; Complete false 5; ClickReset 9; Complete true 12;
            ClickReset 20; ClickReset 21; Complete false 30; ClickReset 31;
            ClickReset 40; Complete false 50]).
  reflexivity.
Defined.

End Cycle.

(* ================================================================= *)
(** ** What the page shows *)

Section Display.

Lemma string_length_app (a b : string) :
  String.length (a ++ b) = (String.length a + String.length b)%nat.
Proof. induction a as [|c a IH]; cbn; [reflexivity|]. rewrite IH. reflexivity. Qed.

Lemma string_app_inv_tail (s : string) : forall a b : string,
  a ++ s = b ++ s -> a = b.
Proof.
  induction a as [|c a IH]; intros [|d b] H; cbn in H.
  - reflexivity.
  - apply (f_equal String.length) in H. cbn in H.
    rewrite string_length_app in H. lia.
  - apply (f_equal String.length) in H. cbn in H.
    rewrite string_length_app in H. lia.
  - injection H as -> H. rewrite (IH b H). reflexivity.
Qed.

(** Two texts of digits followed by the same non-digit mark split at the
    same place. *)
Lemma split_at_mark (mark : ascii) :
  isDecimalDigit mark = false ->
  forall a a' b b' : string,
  allDecimal a = true -> allDecimal a' = true ->
  a ++ String mark b = a' ++ String mark b' -> a = a' /\ b = b'.
Proof.
  intros Hmark. induction a as [|c a IH]; intros [|c' a'] b b' Ha Ha' H;
    cbn in H, Ha, Ha'.
  - injection H as ->. auto.
  - injection H as <- _. rewrite Hmark in Ha'. discriminate.
  - injection H as -> _. rewrite Hmark in Ha. discriminate.
  - injection H as -> H.
    apply andb_prop in Ha as (_ & Ha). apply andb_prop in Ha' as (_ & Ha').
    destruct (IH a' b b' Ha Ha' H) as (-> & ->). auto.
Qed.

Lemma toString_nonempty z : toString z <> "".
Proof.
  intros H. pose proof (parseInt_toString z) as P. rewrite H in P.
  discriminate P.
Qed.

Lemma toString_decimal z : 0 <= z -> allDecimal (toString z) = true.
Proof.
  intros Hz. unfold toString. destruct z as [|p|p]; [reflexivity| |lia].
  cbn [Z.to_int NilZero.string_of_int].
  pose proof (Unsigned.to_uint_nonnil p) as Hn.
  destruct (Pos.to_uint p) as [|u|u|u|u|u|u|u|u|u|u];
    [contradiction|..]; cbn [NilZero.string_of_uint];
    apply string_of_uint_decimal.
Qed.

Lemma single_digit c n : parseInt (String c "") = Some n -> 0 <= n <= 9.
Proof.
  destruct c as [[] [] [] [] [] [] [] []]; vm_compute; intros H;
    try discriminate H; injection H as <-; split; discriminate.
Qed.

Lemma small_cases m : 0 <= m <= 9 ->
  m = 0 \/ m = 1 \/ m = 2 \/ m = 3 \/ m = 4 \/ m = 5 \/ m = 6 \/ m = 7 \/
  m = 8 \/ m = 9.
Proof. lia. Qed.

(** [pad] puts one zero before a single digit and nothing before more. *)
Lemma pad_cases m :
  0 <= m ->
  (m <= 9 /\ pad m = String "0" (toString m) /\
   String.length (toString m) = 1%nat) \/
  (10 <= m /\ pad m = toString m /\ (2 <= String.length (toString m))%nat).
Proof.
  intros Hm. destruct (Z.le_gt_cases m 9) as [H9|H9].
  - left. split; [exact H9|].
    destruct (small_cases m (conj Hm H9))
      as [->|[->|[->|[->|[->|[->|[->|[->|[->| ->]]]]]]]]];
      vm_compute; auto.
  - right. split; [lia|]. unfold pad.
    pose proof (parseInt_toString m) as P.
    destruct (toString m) as [|c [|c' r]].
    + discriminate P.
    + apply single_digit in P. lia.
    + split; [reflexivity|]. cbn. lia.
Qed.

Lemma parseInt_pad m : 0 <= m -> parseInt (pad m) = Some m.
Proof.
  intros Hm. destruct (pad_cases m Hm) as [(H9 & _)|(_ & -> & _)].
  - destruct (small_cases m (conj Hm H9))
      as [->|[->|[->|[->|[->|[->|[->|[->|[->| ->]]]]]]]]];
      vm_compute; reflexivity.
  - apply parseInt_toString.
Qed.

Lemma pad_decimal m : 0 <= m -> allDecimal (pad m) = true.
Proof.
  intros Hm. pose proof (toString_decimal m Hm) as Hd.
  destruct (pad_cases m Hm) as [(_ & -> & _)|(_ & -> & _)];
    [cbn [allDecimal]; rewrite Hd; reflexivity|exact Hd].
Qed.

Lemma pad_length m : 0 <= m -> (2 <= String.length (pad m))%nat.
Proof.
  intros Hm. destruct (pad_cases m Hm) as [(_ & -> & Hl)|(_ & -> & Hl)];
    [cbn [String.length]; lia|exact Hl].
Qed.

Lemma pad_length_two m : 0 <= m < 100 -> String.length (pad m) = 2%nat.
Proof.
  intros Hm.
  assert (H : forallb (fun k => Nat.eqb (String.length (pad (Z.of_nat k))) 2)
                      (seq 0 100) = true) by (vm_compute; reflexivity).
  rewrite forallb_forall in H.
  specialize (H (Z.to_nat m)). rewrite in_seq in H.
  specialize (H ltac:(lia)). rewrite Z2Nat.id in H by lia.
  apply Nat.eqb_eq. exact H.
Qed.

Lemma pad_inj m n : 0 <= m -> 0 <= n -> pad m = pad n -> m = n.
Proof.
  intros Hm Hn H. pose proof (parseInt_pad m Hm) as P.
  rewrite H, (parseInt_pad n Hn) in P. congruence.
Qed.

Lemma minutes_seconds t :
  0 <= t -> 0 <= t / 60 /\ 0 <= Z.rem t 60 < 60 /\ 60 * (t / 60) + Z.rem t 60 = t.
Proof.
  intros Ht. rewrite Z.rem_mod_nonneg by lia.
  pose proof (Z.mod_pos_bound t 60 ltac:(lia)).
  pose proof (Z.div_mod t 60 ltac:(lia)).
  pose proof (Z.div_pos t 60 Ht ltac:(lia)). lia.
Qed.

(** X14.  The clock on the page can be read back.  For a time left that is
    not negative and a safe integer the display is minutes, a colon,
    seconds; the seconds take two digits and are below 60, the minutes take
    at least two; read as numbers they give back the time left. *)
Theorem clock_reads_back (s : State) :
  0 <= timeRemaining s <= MAX_SAFE_INTEGER ->
  exists mm ss m sec,
    timeDisplay (view s) = mm ++ ":" ++ ss /\
    allDecimal mm = true /\ allDecimal ss = true /\
    (2 <= String.length mm)%nat /\ String.length ss = 2%nat /\
    parseInt mm = Some m /\ parseInt ss = Some sec /\
    0 <= sec < 60 /\ 60 * m + sec = timeRemaining s.
Proof.
  intros (Ht & _).
  destruct (minutes_seconds (timeRemaining s) Ht) as (Hm & Hs & He).
  exists (pad (timeRemaining s / 60)), (pad (Z.rem (timeRemaining s) 60)),
         (timeRemaining s / 60), (Z.rem (timeRemaining s) 60).
  split; [reflexivity|].
  split; [apply pad_decimal; lia|]. split; [apply pad_decimal; lia|].
  split; [apply pad_length; lia|]. split; [apply pad_length_two; lia|].
  split; [apply parseInt_pad; lia|]. split; [apply parseInt_pad; lia|].
  split; assumption.
Qed.

Lemma clock_reads_back_witness :
  let s := mkState WORK 1499 true 1 (Some 1%nat) in
  0 <= timeRemaining s <= MAX_SAFE_INTEGER /\
  timeDisplay (view s) = "24:59" /\
  exists mm ss m sec,
    timeDisplay (view s) = mm ++ ":" ++ ss /\
    allDecimal mm = true /\ allDecimal ss = true /\
    (2 <= String.length mm)%nat /\ String.length ss = 2%nat /\
    parseInt mm = Some m /\ parseInt ss = Some sec /\
    0 <= sec < 60 /\ 60 * m + sec = timeRemaining s.
Proof.
  split; [vm_compute; split; discriminate|].
  split; [vm_compute; reflexivity|].
  apply (clock_reads_back (mkState WORK 1499 true 1 (Some 1%nat))).
  vm_compute. split; discriminate.
Defined.

(** X15.  The page determines the state it shows: two states with times
    left that are not negative and with the same page have the same mode,
    time left, running flag and counter. *)
Theorem page_determines_the_state (s1 s2 : State) :
  0 <= timeRemaining s1 -> 0 <= timeRemaining s2 ->
  view s1 = view s2 ->
  mode s1 = mode s2 /\ timeRemaining s1 = timeRemaining s2 /\
  isRunning s1 = isRunning s2 /\ cycleCount s1 = cycleCount s2.
Proof.
  intros H1 H2 Hv.
  destruct (minutes_seconds _ H1) as (Hm1 & Hs1 & He1).
  destruct (minutes_seconds _ H2) as (Hm2 & Hs2 & He2).
  pose proof (f_equal timeDisplay Hv) as Ht.
  pose proof (f_equal modeDisplay Hv) as Hl.
  pose proof (f_equal cycleDisplay Hv) as Hc.
  pose proof (f_equal startHidden Hv) as Hr.
  unfold view in Ht, Hl, Hc, Hr.
  cbn [timeDisplay modeDisplay cycleDisplay startHidden] in Ht, Hl, Hc, Hr.
  split; [|split; [|split; [exact Hr|]]].
  - destruct (mode s1), (mode s2); try reflexivity; discriminate Hl.
  - change (pad (timeRemaining s1 / 60) ++
            String ":" (pad (Z.rem (timeRemaining s1) 60)) =
            pad (timeRemaining s2 / 60) ++
            String ":" (pad (Z.rem (timeRemaining s2) 60))) in Ht.
    apply split_at_mark in Ht as (Hm & Hs);
      [|reflexivity|apply pad_decimal; lia|apply pad_decimal; lia].
    apply pad_inj in Hm; [|lia|lia]. apply pad_inj in Hs; [|lia|lia]. lia.
  - change ("Cycle " ++ toString (cycleCount s1) ++ "/3") with
      (String "C" (String "y" (String "c" (String "l" (String "e"
        (String " " (toString (cycleCount s1) ++ "/3"))))))) in Hc.
    change ("Cycle " ++ toString (cycleCount s2) ++ "/3") with
      (String "C" (String "y" (String "c" (String "l" (String "e"
        (String " " (toString (cycleCount s2) ++ "/3"))))))) in Hc.
    injection Hc as Hc. apply string_app_inv_tail in Hc.
    pose proof (parseInt_toString (cycleCount s1)) as P.
    rewrite Hc, parseInt_toString in P. congruence.
Qed.

Lemma page_determines_the_state_witness :
  let s1 := mkState SHORT 300 false 2 None in
  let s2 := mkState SHORT 300 false 2 (Some 7%nat) in
  0 <= timeRemaining s1 /\ 0 <= timeRemaining s2 /\ view s1 = view s2 /\
  timeRemaining s1 = timeRemaining s2.
Proof.
  split; [cbn; lia|]. split; [cbn; lia|]. split; [reflexivity|].
  apply (page_determines_the_state (mkState SHORT 300 false 2 None)
           (mkState SHORT 300 false 2 (Some 7%nat)));
    [cbn; lia|cbn; lia|reflexivity].
Defined.

End Display.

(* ================================================================= *)
(** ** Durations that are accepted *)

Section Accepted.

Lemma trimStart_white ws s : allWhite ws = true -> trimStart (ws ++ s) = trimStart s.
Proof.
  induction ws as [|c ws IH]; cbn; [reflexivity|]. intros H.
  apply andb_prop in H as (-> & H). auto.
Qed.

Lemma nondecimal_char c : isDecimalDigit c = false -> radixDigit 10 c = None.
Proof.
  destruct c as [[] [] [] [] [] [] [] []]; vm_compute; intros H;
    try reflexivity; discriminate H.
Qed.

Lemma digits_numeral num rest :
  allDecimal num = true -> endsNumeral rest = true ->
  digits 10 (num ++ rest) = digits 10 num.
Proof.
  intros Hn Hr. induction num as [|c num IH]; cbn [append digits].
  - destruct rest as [|c r]; [reflexivity|]. cbn in Hr.
    apply andb_prop in Hr as (Hr & _). apply negb_true_iff in Hr.
    cbn [digits]. rewrite (nondecimal_char c Hr). reflexivity.
  - cbn in Hn. apply andb_prop in Hn as (Hc & Hn).
    destruct (decimal_char c Hc) as (_ & _ & -> & _). rewrite (IH Hn).
    reflexivity.
Qed.

Lemma stripPrefix_noX c c' r :
  isX c' = false -> stripPrefix (String c (String c' r)) = (10, String c (String c' r)).
Proof.
  intros Hx. unfold stripPrefix. rewrite Hx.
  destruct c as [[] [] [] [] [] [] [] []]; reflexivity.
Qed.

Lemma stripPrefix_numeral num rest :
  allDecimal num = true -> num <> "" -> endsNumeral rest = true ->
  stripPrefix (num ++ rest) = (10, num ++ rest).
Proof.
  intros Hn Hne Hr. destruct num as [|c [|c' num]]; [contradiction| |].
  - destruct rest as [|c' r]; cbn [append].
    + destruct c as [[] [] [] [] [] [] [] []]; reflexivity.
    + cbn in Hr. apply andb_prop in Hr as (_ & Hr).
      apply negb_true_iff in Hr. apply stripPrefix_noX, Hr.
  - cbn [append]. cbn in Hn. apply andb_prop in Hn as (_ & Hn).
    apply andb_prop in Hn as (Hc' & _).
    destruct (decimal_char c' Hc') as (_ & Hx & _).
    apply stripPrefix_noX, Hx.
Qed.

(** White space, an optional plus, a decimal numeral, then anything that
    does not continue it: [parseInt] gives the numeral's value. *)
Lemma parseInt_lenient ws sign num rest :
  allWhite ws = true -> sign = "" \/ sign = "+" ->
  allDecimal num = true -> num <> "" -> endsNumeral rest = true ->
  parseInt (ws ++ sign ++ num ++ rest) = parseInt num.
Proof.
  intros Hw Hsign Hn Hne Hr.
  destruct (parseInt_decimal num Hn Hne) as (-> & _).
  pose proof (stripPrefix_numeral num rest Hn Hne Hr) as Hp.
  pose proof (digits_numeral num rest Hn Hr) as Hd.
  unfold parseInt. rewrite (trimStart_white ws _ Hw).
  destruct num as [|c num]; [contradiction|].
  pose proof Hn as Hn'. cbn in Hn'. apply andb_prop in Hn' as (Hc & _).
  destruct (decimal_char c Hc) as (Hws & _ & Hdc & Hss).
  assert (Hnil : digits 10 (String c num) <> []).
  { cbn [digits]. rewrite Hdc. discriminate. }
  destruct Hsign as [->| ->]; cbn [append trimStart].
  - rewrite Hws, Hss.
    change (String c (num ++ rest)) with (String c num ++ rest).
    rewrite Hp, Hd.
    destruct (digits 10 (String c num)); [contradiction|]. f_equal. lia.
  - replace (isWhiteSpace "+") with false by reflexivity. cbn [stripSign].
    change (String c (num ++ rest)) with (String c num ++ rest).
    rewrite Hp, Hd.
    destruct (digits 10 (String c num)); [contradiction|]. f_equal. lia.
Qed.

(** X16.  A duration parameter is accepted far beyond plain numerals: for
    every positive safe integer [z], its decimal numeral - alone, or after
    white space and an optional plus sign, or followed by text that starts
    with neither a digit nor an x - sets the duration to [z]. *)
Theorem positive_durations_are_accepted params c key z ws sign rest :
  In key ["work"; "short"; "long"] ->
  0 < z <= MAX_SAFE_INTEGER ->
  allWhite ws = true -> sign = "" \/ sign = "+" -> endsNumeral rest = true ->
  get params key = Some (ws ++ sign ++ toString z ++ rest) ->
  durationOf key (parseUrlParams params c) = z.
Proof.
  intros Hkey (Hz & _) Hw Hsign Hr Hget.
  rewrite (durationOf_parseUrlParams params c key Hkey).
  unfold getPositiveIntParam. rewrite Hget.
  rewrite (parseInt_lenient ws sign (toString z) rest Hw Hsign
             (toString_decimal z ltac:(lia)) (toString_nonempty z) Hr).
  rewrite parseInt_toString.
  destruct (Z.gtb_spec z 0); [reflexivity|lia].
Qed.

Lemma positive_durations_are_accepted_witness :
  let params := [("work", "  +45 minutes"); ("short", "7.5"); ("long", "20")] in
  (In "work" ["work"; "short"; "long"] /\ 0 < 45 <= MAX_SAFE_INTEGER /\
   get params "work" = Some ("  " ++ "+" ++ toString 45 ++ " minutes")) /\
  work (parseUrlParams params DEFAULTS) = 45 /\
  short (parseUrlParams params DEFAULTS) = 7 /\
  long (parseUrlParams params DEFAULTS) = 20.
Proof.
  split; [split; [left; reflexivity
                 |split; [vm_compute; split; [reflexivity|discriminate]|reflexivity]]|].
  split; [|split].
  - apply (positive_durations_are_accepted
             [("work", "  +45 minutes"); ("short", "7.5"); ("long", "20")]
             DEFAULTS "work" 45 "  " "+" " minutes");
      [left; reflexivity|vm_compute; split; [reflexivity|discriminate]|reflexivity
      |right; reflexivity|reflexivity|reflexivity].
  - apply (positive_durations_are_accepted
             [("work", "  +45 minutes"); ("short", "7.5"); ("long", "20")]
             DEFAULTS "short" 7 "" "" ".5");
      [right; left; reflexivity|vm_compute; split; [reflexivity|discriminate]|reflexivity
      |left; reflexivity|reflexivity|reflexivity].
  - apply (positive_durations_are_accepted
             [("work", "  +45 minutes"); ("short", "7.5"); ("long", "20")]
             DEFAULTS "long" 20 "" "" "");
      [right; right; left; reflexivity|vm_compute; split; [reflexivity|discriminate]
      |reflexivity|left; reflexivity|reflexivity|reflexivity].
Defined.

(** X17.  Auto-advance is on for the whole run exactly when the auto
    parameter is present with the value "true" or "1"; any other value,
    the empty one included, and no parameter at all leave it off. *)
Theorem auto_advance_is_on_for_true_or_one params html es :
  auto (config (run (init params html) es)) = true <->
  get params "auto" = Some "true" \/ get params "auto" = Some "1".
Proof.
  rewrite run_config, init_config. unfold parseUrlParams.
  destruct (get params "auto") as [v|] eqn:Ha.
  - assert (H : auto
        (match get params "sound" with
         | Some soundParam =>
             if String.eqb soundParam "" then
               mkConfig (getPositiveIntParam params "work" 25)
                 (getPositiveIntParam params "short" 5)
                 (getPositiveIntParam params "long" 15)
                 (String.eqb v "true" || String.eqb v "1") "bell"
             else
               mkConfig (getPositiveIntParam params "work" 25)
                 (getPositiveIntParam params "short" 5)
                 (getPositiveIntParam params "long" 15)
                 (String.eqb v "true" || String.eqb v "1") soundParam
         | None =>
             mkConfig (getPositiveIntParam params "work" 25)
               (getPositiveIntParam params "short" 5)
               (getPositiveIntParam params "long" 15)
               (String.eqb v "true" || String.eqb v "1") "bell"
         end) = (String.eqb v "true" || String.eqb v "1")).
    { destruct (get params "sound") as [sp|];
        [destruct (String.eqb sp "")|]; reflexivity. }
    cbn. cbn in H. rewrite H. split.
    + intros Hb. apply orb_prop in Hb as [Hb|Hb];
        apply String.eqb_eq in Hb; subst v; auto.
    + intros [[= ->]|[= ->]]; reflexivity.
  - cbn. split.
    + destruct (get params "sound") as [sp|];
        [destruct (String.eqb sp "")|]; cbn; discriminate.
    + intros [H|H]; discriminate H.
Qed.

End Accepted.
